(** * Distribution tooling for Helm: image lock transfer engine

    A shallow embedding of the Go sources
      - chartutils/options.go  (Configuration, PullImages, PushImages, ...)
      - cmd/dt/pull.go         (pullChartImages, compressChart)
      - cmd/dt/wrap.go         (wrapChart, resolveInputChartPath)
      - internal/testutil/testutil.go (ReadRemoteImageManifest)

    Go functions that perform I/O become state-passing functions over a
    [World] (file system, logical clock, event trace).  The registry, the
    file system faults and the cancellation instant are oracles indexed by
    the logical clock, so that transient failures and asynchronous
    cancellation can be expressed.  A Go [error] is a value of type [error];
    a run-time panic is the third outcome [Panic]. *)

From Stdlib Require Import ZArith List String Lia.
From stdpp Require Import gmap strings list.

Set Warnings "-register-all".
Local Open Scope Z_scope.
Local Open Scope string_scope.

(** ** Go error values *)

(** [Errorf format args] is the value built by [fmt.Errorf(format, args...)];
    the verb [%w] or [%v] applied to an error keeps the cause as an argument.
    [LibError] is an error produced inside an external library.
    [Join] is the value built by [errors.Join].
    [LoggedError] is a [*log.LoggedError], an error that was already shown
    to the user. *)
Inductive error : Type :=
| Errorf (format : string) (args : list fmt_arg)
| LibError (msg : string)
| Join (errs : list error)
| LoggedError (e : error)
with fmt_arg : Type :=
| AStr (s : string)
| AInt (n : Z)
| AErr (e : error).

(** [errors.Join(a, b)] where [a] may be the nil error and [b] is not. *)
Definition errors_Join (a : option error) (b : error) : option error :=
  match a with
  | None => Some (Join [b])
  | Some a' => Some (Join [a'; b])
  end.

(** ** Registry objects (go-containerregistry, package v1) *)

Record Platform := {
  OS : string;
  Architecture : string;
  Variant : string;
}.

(** [v1.Descriptor]: one entry of a manifest list. *)
Record Descriptor := {
  MediaType : string;
  Digest : string;
  DescPlatform : option Platform;
  Annotations : gmap string string;
}.

(** What the engine observes of a [v1.Image]: the results of
    [partial.Descriptor(img)] and of [img.ConfigFile()] followed by
    [cf.Platform()]. *)
Record Image := {
  imageId : string;
  partial_Descriptor : error + Descriptor;
  ConfigFile_Platform : error + option Platform;
}.

(** [mutate.IndexAddendum]. *)
Record IndexAddendum := {
  Add : Image;
  AddDescriptor : Descriptor;
}.

(** [v1.ImageIndex] as built by [mutate]: a media type and its manifests. *)
Record ImageIndex := {
  IndexMediaType : string;
  IndexManifests : list IndexAddendum;
}.

Definition types_DockerManifestList : string :=
  "application/vnd.docker.distribution.manifest.list.v2+json".
Definition types_OCIManifestSchema1 : string :=
  "application/vnd.oci.image.manifest.v1+json".
Definition types_DockerManifestSchema2 : string :=
  "application/vnd.docker.distribution.manifest.v2+json".
Definition types_OCIImageIndex : string :=
  "application/vnd.oci.image.index.v1+json".

(** [empty.Index]. *)
Definition empty_Index : ImageIndex :=
  {| IndexMediaType := types_OCIImageIndex; IndexManifests := [] |}.

Definition mutate_IndexMediaType (idx : ImageIndex) (mt : string) : ImageIndex :=
  {| IndexMediaType := mt; IndexManifests := IndexManifests idx |}.

Definition mutate_AppendManifests (base : ImageIndex) (adds : list IndexAddendum)
  : ImageIndex :=
  {| IndexMediaType := IndexMediaType base;
     IndexManifests := IndexManifests base ++ adds |}.

(** [v1.IndexManifest]: the decoded body of a manifest list. *)
Record IndexManifest := {
  Manifests : list Descriptor;
}.

(** [remote.Descriptor]: the raw manifest and the outcome of [Image()]. *)
Record RemoteDescriptor := {
  Manifest : string;
  Descriptor_Image : error + Image;
}.

(** ** The image lock (package imagelock) *)

(** [imagelock.DigestInfo]. [DigestOf] is a [digest.Digest], a string
    [algorithm:encoded]. *)
Record DigestInfo := {
  DigestOf : string;
  Arch : string;
}.

(** [imagelock.ChartImage]. *)
Record ChartImage := {
  Name : string;
  ImageRef : string;
  Chart : string;
  Digests : list DigestInfo;
}.

(** [imagelock.ImagesLock]; [Images] is an [imagelock.ImageList]. *)
Record ImagesLock := {
  LockChartName : string;
  LockChartVersion : string;
  Images : list ChartImage;
}.

(** [digest.Digest.Encoded]: the part after the first colon; the library
    panics when the digest holds no colon, which is [None] here. *)
Definition Digest_Encoded (d : string) : option string :=
  match String.index 0 ":" d with
  | Some i => Some (String.substring (S i) (String.length d - S i) d)
  | None => None
  end.

(** ** The world *)

Inductive File : Type :=
| TarFile (img : Image) (tag : string)
| TruncatedFile
| DataFile (content : string)
| ArchiveFile (entries : list (string * File)).

Record Logger := { loggerName : string }.
Record ProgressBar := { barName : string }.

Inductive PbOp : Type :=
| WithTotal (n : Z)
| UpdateTitle (format : string) (args : list fmt_arg)
| Start
| PbAdd (n : Z)
| Warnf (format : string) (args : list fmt_arg)
| Stop.

Inductive Event : Type :=
| Progress (pb : ProgressBar) (op : PbOp)
| Debugf (l : Logger) (format : string) (args : list fmt_arg)
| RemoteGet (ref : string)
| RemoteWriteIndex (ref : string) (idx : ImageIndex) (ok : bool)
| CraneSave (tag : string) (path : string)
| CraneLoad (path : string)
| Step (what : string)
| Logf (level : string) (format : string) (args : list fmt_arg).

Record World := {
  files : gmap string File;
  dirs : gset string;
  clock : nat;
  trace : list Event;
}.

(** [context.Context]: the instant from which [Done] is closed and [Err]
    is non-nil; [None] for a context that is never cancelled. *)
Record Context := { doneAt : option nat }.

Definition context_Background : Context := {| doneAt := None |}.

(** External collaborators. *)
Record Env := {
  (* name.ParseReference: [Some e] when the string is no reference *)
  name_ParseReference_err : string -> option error;
  (* remote.Get at an instant *)
  remote_Get : nat -> string -> error + RemoteDescriptor;
  (* remote.WriteIndex at an instant *)
  remote_WriteIndex : nat -> string -> ImageIndex -> option error;
  (* a local I/O fault at an instant *)
  ioFault : nat -> option error;
  (* filepath.Join of two elements *)
  filepath_Join : string -> string -> string;
  (* imagelock.DefaultAnnotationsKey *)
  imagelock_DefaultAnnotationsKey : string;
}.

(** ** Outcomes and state passing *)

Inductive Res (A : Type) : Type :=
| Ok (a : A)
| Err (e : error)
| Panic (msg : string).
Arguments Ok {A} a.
Arguments Err {A} e.
Arguments Panic {A} msg.

Definition M (A : Type) : Type := World -> Res A * World.

Definition ret {A} (a : A) : M A := fun w => (Ok a, w).
Definition fail {A} (e : error) : M A := fun w => (Err e, w).
Definition panic {A} (msg : string) : M A := fun w => (Panic msg, w).

Definition bind {A B} (m : M A) (k : A -> M B) : M B :=
  fun w =>
    match m w with
    | (Ok a, w') => k a w'
    | (Err e, w') => (Err e, w')
    | (Panic s, w') => (Panic s, w')
    end.

Notation "x <-- m ;; k" := (bind m (fun x => k))
  (at level 100, m at next level, right associativity).
Notation "m ;;; k" := (bind m (fun _ => k))
  (at level 100, right associativity).

(** [if err != nil { return f(err) }] around a call. *)
Definition wrapErr {A} (f : error -> error) (m : M A) : M A :=
  fun w =>
    match m w with
    | (Err e, w') => (Err (f e), w')
    | r => r
    end.

(** [defer d] in front of [body]: [d] runs on every way out. *)
Definition deferred {A} (d : World -> World) (body : M A) : M A :=
  fun w => let '(r, w') := body w in (r, d w').

Definition lift {A} (r : error + A) : M A :=
  match r with
  | inl e => fail e
  | inr a => ret a
  end.

Definition emitW (ev : Event) (w : World) : World :=
  {| files := files w; dirs := dirs w; clock := clock w;
     trace := trace w ++ [ev] |}.

Definition tickW (w : World) : World :=
  {| files := files w; dirs := dirs w; clock := S (clock w);
     trace := trace w |}.

Definition emit (ev : Event) : M unit := fun w => (Ok tt, emitW ev w).
Definition tick : M nat := fun w => (Ok (clock w), tickW w).

Definition is_done (ctx : Context) (t : nat) : bool :=
  match doneAt ctx with
  | Some c => (c <=? t)%nat
  | None => false
  end.

(** [select { case <-ctx.Done(): ... default: ... }]: is the channel closed
    now? *)
Definition ctx_Done (ctx : Context) : M bool :=
  t <-- tick ;; ret (is_done ctx t).

(** [ctx.Err() != nil]. *)
Definition ctx_Err (ctx : Context) : M bool :=
  t <-- tick ;; ret (is_done ctx t).

(** [return err] for a possibly nil [err]. *)
Definition return_error (e : option error) : M unit :=
  match e with
  | Some e' => fail e'
  | None => ret tt
  end.

(** A range loop whose body may return from the enclosing function. *)
Fixpoint forEach {A} (l : list A) (body : A -> M unit) : M unit :=
  match l with
  | [] => ret tt
  | x :: rest => body x ;;; forEach rest body
  end.

(** *** Local I/O *)

Definition setFile (path : string) (f : File) (w : World) : World :=
  {| files := <[path := f]> (files w); dirs := dirs w; clock := clock w;
     trace := trace w |}.

Definition addDir (path : string) (w : World) : World :=
  {| files := files w; dirs := {[path]} ∪ dirs w; clock := clock w;
     trace := trace w |}.

(** [os.MkdirAll(path, 0755)]: fails on a fault or when [path] is a
    regular file; succeeds on an existing directory. *)
Definition os_MkdirAll (env : Env) (path : string) : M unit :=
  t <-- tick ;;
  match ioFault env t with
  | Some e => fail e
  | None =>
      fun w =>
        match files w !! path with
        | Some _ => (Err (LibError "mkdir: not a directory"), w)
        | None => (Ok tt, addDir path w)
        end
  end.

(** [crane.Save(img, tag, path)]: writes the image as a tarball tagged
    [tag]; a fault leaves a truncated file behind. *)
Definition crane_Save (env : Env) (img : Image) (tag path : string) : M unit :=
  t <-- tick ;;
  emit (CraneSave tag path) ;;;
  fun w =>
    if decide (path ∈ dirs w) then (Err (LibError "open: is a directory"), w)
    else
      match ioFault env t with
      | Some e => (Err e, setFile path TruncatedFile w)
      | None => (Ok tt, setFile path (TarFile img tag) w)
      end.

(** [crane.Load(path)]: reads back a tarball written by [crane.Save]. *)
Definition crane_Load (env : Env) (path : string) : M Image :=
  t <-- tick ;;
  emit (CraneLoad path) ;;;
  match ioFault env t with
  | Some e => fail e
  | None =>
      fun w =>
        match files w !! path with
        | Some (TarFile img _) => (Ok img, w)
        | Some _ => (Err (LibError "load: not an image tarball"), w)
        | None => (Err (LibError "open: no such file"), w)
        end
  end.

(** *** Registry *)

(** [name.ParseReference(src, o.Name...)]; a parsed reference is kept as
    the string it was parsed from. *)
Definition name_ParseReference (env : Env) (src : string) : M string :=
  match name_ParseReference_err env src with
  | Some e => fail e
  | None => ret src
  end.

(** [remote.Get(ref, o.Remote...)]. *)
Definition do_remote_Get (env : Env) (ref : string) : M RemoteDescriptor :=
  t <-- tick ;;
  emit (RemoteGet ref) ;;;
  lift (remote_Get env t ref).

(** [remote.WriteIndex(ref, idx, o.Remote...)]. *)
Definition do_remote_WriteIndex (env : Env) (ref : string) (idx : ImageIndex)
  : M unit :=
  t <-- tick ;;
  match remote_WriteIndex env t ref idx with
  | Some e => emit (RemoteWriteIndex ref idx false) ;;; fail e
  | None => emit (RemoteWriteIndex ref idx true)
  end.

(** *** Logging: [l.Debugf] on the interface value [cfg.Log], which is nil
    unless [WithLog] was given. *)
Definition log_Debugf (l : option Logger) (format : string)
    (args : list fmt_arg) : M unit :=
  match l with
  | Some lg => emit (Debugf lg format args)
  | None => panic "invalid memory address or nil pointer dereference"
  end.

(** ** chartutils: configuration (options.go, first part) *)

Record Configuration := {
  AnnotationsKey : string;
  Log : option Logger;
  Ctx : Context;
  Bar : ProgressBar;
  MaxRetries : Z;
}.

Definition Option := Configuration -> Configuration.

Definition WithContext (ctx : Context) : Option := fun cfg =>
  {| AnnotationsKey := AnnotationsKey cfg; Log := Log cfg; Ctx := ctx;
     Bar := Bar cfg; MaxRetries := MaxRetries cfg |}.


Definition WithProgressBar (pb : ProgressBar) : Option := fun cfg =>
  {| AnnotationsKey := AnnotationsKey cfg; Log := Log cfg; Ctx := Ctx cfg;
     Bar := pb; MaxRetries := MaxRetries cfg |}.

Definition WithLog (l : Logger) : Option := fun cfg =>
  {| AnnotationsKey := AnnotationsKey cfg; Log := Some l; Ctx := Ctx cfg;
     Bar := Bar cfg; MaxRetries := MaxRetries cfg |}.

Definition WithAnnotationsKey (str : string) : Option := fun cfg =>
  {| AnnotationsKey := str; Log := Log cfg; Ctx := Ctx cfg;
     Bar := Bar cfg; MaxRetries := MaxRetries cfg |}.

(** [widgets.NewSilentProgressBar()]. *)
Definition widgets_NewSilentProgressBar : ProgressBar :=
  {| barName := "silent" |}.

Definition NewConfiguration (env : Env) (opts : list Option) : Configuration :=
  fold_left (fun cfg opt => opt cfg) opts
    {| AnnotationsKey := imagelock_DefaultAnnotationsKey env;
       Log := None;
       Ctx := context_Background;
       Bar := widgets_NewSilentProgressBar;
       MaxRetries := 3 |}.

(** ** utils.ExecuteWithRetry *)

(** Modelled from the spec: [utils.ExecuteWithRetry] (package utils is not
    part of the sources at hand).  The callback is invoked per attempt with
    the attempt number, starting at 0, and the previous error; the loop ends
    at the first success, or with the last error once the attempt numbered
    [retries] has failed, so a unit that fails [retries + 1] times is given
    up.  Time passes between two attempts. *)
Fixpoint retryFrom (left : nat) (try : Z) (prevErr : option error)
    (cb : Z -> option error -> M unit) : M unit :=
  fun w =>
    match cb try prevErr w with
    | (Err e, w') =>
        match left with
        | O => (Err e, w')
        | S left' => retryFrom left' (try + 1) (Some e) cb (tickW w')
        end
    | r => r
    end.

Definition ExecuteWithRetry (retries : Z) (cb : Z -> option error -> M unit)
  : M unit :=
  retryFrom (Z.to_nat retries) 0 None cb.

(** ** chartutils: transfer (options.go, second part) *)

Definition getNumberOfArtifacts (images : list ChartImage) : Z :=
  fold_left (fun n imgDesc => n + Z.of_nat (length (Digests imgDesc))) images 0.

(** [filepath.Join(imagesDir, fmt.Sprintf("%s.tar", dgst.Digest.Encoded()))] *)
Definition getImageTarFile (env : Env) (imagesDir : string) (dgst : DigestInfo)
  : M string :=
  match Digest_Encoded (DigestOf dgst) with
  | Some enc => ret (filepath_Join env imagesDir (enc ++ ".tar"))
  | None => panic "no ':' separator in digest"
  end.

Definition pullImage (env : Env) (image : string) (digest : DigestInfo)
    (imagesDir : string) : M string :=
  imgFileName <-- getImageTarFile env imagesDir digest ;;
  let src := image ++ "@" ++ DigestOf digest in
  ref <-- wrapErr (fun err => Errorf "parsing reference %q: %w" [AStr src; AErr err])
            (name_ParseReference env src) ;;
  rmt <-- do_remote_Get env ref ;;
  img <-- lift (Descriptor_Image rmt) ;;
  wrapErr (fun err => Errorf "failed to save image %q to %q: %w"
                        [AStr image; AStr imgFileName; AErr err])
          (crane_Save env img image imgFileName) ;;;
  ret imgFileName.

(** The callback handed to [ExecuteWithRetry] by [PullImages]. *)
Definition pullAttempt (env : Env) (cfg : Configuration) (imagesDir : string)
    (imgDesc : ChartImage) (dgst : DigestInfo)
    (try : Z) (prevErr : option error) : M unit :=
  let maxRetries := MaxRetries cfg in
  let attempt := pullImage env (ImageRef imgDesc) dgst imagesDir ;;; ret tt in
  if (0 <? try)%Z then
    cancelled <-- ctx_Err (Ctx cfg) ;;
    if (cancelled : bool) then return_error prevErr
    else
      log_Debugf (Log cfg) "Failed to pull image: %v" (match prevErr with
                                                       | Some e => [AErr e]
                                                       | None => []
                                                       end) ;;;
      emit (Progress (Bar cfg)
              (Warnf "Failed to pull image: retrying %d/%d"
                     [AInt try; AInt maxRetries])) ;;;
      attempt
  else attempt.

(** One iteration of the inner loop of [PullImages]. *)
Definition pullUnit (env : Env) (cfg : Configuration) (imagesDir : string)
    (imgDesc : ChartImage) (dgst : DigestInfo) : M unit :=
  let p := Bar cfg in
  done <-- ctx_Done (Ctx cfg) ;;
  if (done : bool) then fail (Errorf "cancelled execution" [])
  else
    emit (Progress p (PbAdd 1)) ;;;
    emit (Progress p (UpdateTitle "Saving image %s/%s %s (%s)"
                        [AStr (Chart imgDesc); AStr (Name imgDesc);
                         AStr (ImageRef imgDesc); AStr (Arch dgst)])) ;;;
    wrapErr (fun err => Errorf "failed to pull image %q: %w"
                          [AStr (Name imgDesc); AErr err])
      (ExecuteWithRetry (MaxRetries cfg)
         (pullAttempt env cfg imagesDir imgDesc dgst)).

Definition PullImages (env : Env) (lock : ImagesLock) (imagesDir : string)
    (opts : list Option) : M unit :=
  let cfg := NewConfiguration env opts in
  wrapErr (fun err => Errorf "failed to create bundle directory: %v" [AErr err])
    (os_MkdirAll env imagesDir) ;;;
  let p := Bar cfg in
  emit (Progress p (WithTotal (getNumberOfArtifacts (Images lock)))) ;;;
  emit (Progress p (UpdateTitle "Pulling Images" [])) ;;;
  emit (Progress p Start) ;;;
  deferred (emitW (Progress p Stop))
    (forEach (Images lock) (fun imgDesc =>
       forEach (Digests imgDesc) (fun dgst =>
         pullUnit env cfg imagesDir imgDesc dgst))).

Definition withPlatform (d : Descriptor) (p : option Platform) : Descriptor :=
  {| MediaType := MediaType d; Digest := Digest d; DescPlatform := p;
     Annotations := Annotations d |}.

(** The range loop of [buildImageIndex], [adds] being the slice built so
    far. *)
Fixpoint buildImageIndex_loop (env : Env) (imagesDir : string)
    (digests : list DigestInfo) (adds : list IndexAddendum)
  : M (list IndexAddendum) :=
  match digests with
  | [] => ret adds
  | dgstData :: rest =>
      imgFileName <-- getImageTarFile env imagesDir dgstData ;;
      img <-- wrapErr (fun err => Errorf "loading %s as tarball: %w"
                                   [AStr imgFileName; AErr err])
                (crane_Load env imgFileName) ;;
      newDesc <-- wrapErr (fun err => Errorf "failed to create descriptor: %w"
                                       [AErr err])
                    (lift (partial_Descriptor img)) ;;
      plat <-- wrapErr (fun err => Errorf "failed to obtain image config file: %w"
                                    [AErr err])
                 (lift (ConfigFile_Platform img)) ;;
      buildImageIndex_loop env imagesDir rest
        (adds ++ [{| Add := img; AddDescriptor := withPlatform newDesc plat |}])
  end.

Definition buildImageIndex (env : Env) (image : ChartImage) (imagesDir : string)
  : M ImageIndex :=
  let base := mutate_IndexMediaType empty_Index types_DockerManifestList in
  adds <-- buildImageIndex_loop env imagesDir (Digests image) [] ;;
  ret (mutate_AppendManifests base adds).

Definition pushImage (env : Env) (imgData : ChartImage) (imagesDir : string)
  : M unit :=
  idx <-- wrapErr (fun err => Errorf "failed to build image index: %w" [AErr err])
            (buildImageIndex env imgData imagesDir) ;;
  ref <-- wrapErr (fun err => Errorf "failed to parse image reference %q: %w"
                                [AStr (ImageRef imgData); AErr err])
            (name_ParseReference env (ImageRef imgData)) ;;
  wrapErr (fun err => Errorf "failed to write image index: %w" [AErr err])
    (do_remote_WriteIndex env ref idx).

(** The callback handed to [ExecuteWithRetry] by [PushImages]. *)
Definition pushAttempt (env : Env) (cfg : Configuration) (imagesDir : string)
    (imgData : ChartImage) (try : Z) (prevErr : option error) : M unit :=
  let maxRetries := MaxRetries cfg in
  if (0 <? try)%Z then
    cancelled <-- ctx_Err (Ctx cfg) ;;
    if (cancelled : bool) then return_error prevErr
    else
      log_Debugf (Log cfg) "Failed to push image: %v" (match prevErr with
                                                       | Some e => [AErr e]
                                                       | None => []
                                                       end) ;;;
      emit (Progress (Bar cfg)
              (Warnf "Failed to push image: retrying %d/%d"
                     [AInt try; AInt maxRetries])) ;;;
      pushImage env imgData imagesDir
  else pushImage env imgData imagesDir.

(** One iteration of the loop of [PushImages]. *)
Definition pushUnit (env : Env) (cfg : Configuration) (imagesDir : string)
    (imgData : ChartImage) : M unit :=
  let p := Bar cfg in
  done <-- ctx_Done (Ctx cfg) ;;
  if (done : bool) then fail (Errorf "cancelled execution" [])
  else
    emit (Progress p (PbAdd 1)) ;;;
    emit (Progress p (UpdateTitle "Pushing image %q" [AStr (ImageRef imgData)])) ;;;
    wrapErr (fun err => Errorf "failed to push image %q: %w"
                          [AStr (Name imgData); AErr err])
      (ExecuteWithRetry (MaxRetries cfg) (pushAttempt env cfg imagesDir imgData)).

Definition PushImages (env : Env) (lock : ImagesLock) (imagesDir : string)
    (opts : list Option) : M unit :=
  let cfg := NewConfiguration env opts in
  let p := Bar cfg in
  emit (Progress p (WithTotal (Z.of_nat (length (Images lock))))) ;;;
  emit (Progress p (UpdateTitle "Pushing Images" [])) ;;;
  emit (Progress p Start) ;;;
  deferred (emitW (Progress p Stop))
    (forEach (Images lock) (fun imgData => pushUnit env cfg imagesDir imgData)).

(** ** Scenario used by the examples *)

Module Demo.

Definition amd64 : Platform :=
  {| OS := "linux"; Architecture := "amd64"; Variant := "" |}.
Definition arm64 : Platform :=
  {| OS := "linux"; Architecture := "arm64"; Variant := "" |}.

Definition mkImage (id : string) (p : Platform) : Image :=
  {| imageId := id;
     partial_Descriptor :=
       inr {| MediaType := types_DockerManifestSchema2; Digest := id;
              DescPlatform := None; Annotations := ∅ |};
     ConfigFile_Platform := inr (Some p) |}.

Definition dAmd : DigestInfo := {| DigestOf := "sha256:aa"; Arch := "linux/amd64" |}.
Definition dArm : DigestInfo := {| DigestOf := "sha256:bb"; Arch := "linux/arm64" |}.

Definition app : ChartImage :=
  {| Name := "app"; ImageRef := "repo/app"; Chart := "demo";
     Digests := [dAmd; dArm] |}.

Definition lock : ImagesLock :=
  {| LockChartName := "demo"; LockChartVersion := "1.0.0"; Images := [app] |}.

(** A registry that serves both pinned manifests at every instant. *)
Definition registry (t : nat) (ref : string) : error + RemoteDescriptor :=
  if String.eqb ref "repo/app@sha256:aa" then
    inr {| Manifest := "{}"; Descriptor_Image := inr (mkImage "sha256:aa" amd64) |}
  else if String.eqb ref "repo/app@sha256:bb" then
    inr {| Manifest := "{}"; Descriptor_Image := inr (mkImage "sha256:bb" arm64) |}
  else inl (LibError "MANIFEST_UNKNOWN").

Definition env : Env :=
  {| name_ParseReference_err := fun _ => None;
     remote_Get := registry;
     remote_WriteIndex := fun _ _ _ => None;
     ioFault := fun _ => None;
     filepath_Join := fun d f => d ++ "/" ++ f;
     imagelock_DefaultAnnotationsKey := "images" |}.

(** A registry that is down at every instant. *)
Definition envDown : Env :=
  {| name_ParseReference_err := fun _ => None;
     remote_Get := fun _ _ => inl (LibError "connection refused");
     remote_WriteIndex := fun _ _ _ => Some (LibError "connection refused");
     ioFault := fun _ => None;
     filepath_Join := fun d f => d ++ "/" ++ f;
     imagelock_DefaultAnnotationsKey := "images" |}.

Definition w0 : World :=
  {| files := ∅; dirs := ∅; clock := 0; trace := [] |}.


End Demo.

(** ** Observing a run *)

Local Open Scope list_scope.

(** The events a computation appends to the trace when started in [w]. *)
Definition events {A} (m : M A) (w : World) : list Event :=
  drop (length (trace w)) (trace (m w).2).

(** Every event appended by [m], from any world, satisfies [P]. *)
Definition Emits {A} (P : Event -> Prop) (m : M A) : Prop :=
  forall w, exists evs, trace (m w).2 = trace w ++ evs /\ Forall P evs.

(** ** Vocabulary of the properties *)

(** The reference pinned by a Digest Entry of a Chart Image:
    [fmt.Sprintf("%s@%s", image, digest.Digest)]. *)
Definition pinnedRef (img : ChartImage) (d : DigestInfo) : string :=
  (ImageRef img ++ "@" ++ DigestOf d)%string.

(** The transfer units of a pull, in lock order. *)
Definition pullUnits (lock : ImagesLock) : list (ChartImage * DigestInfo) :=
  flat_map (fun img => map (pair img) (Digests img)) (Images lock).

(** Number of Digest Entries of a lock. *)
Definition digestEntries (lock : ImagesLock) : nat :=
  list_sum (map (fun img => length (Digests img)) (Images lock)).

(** What one pull unit may append to the trace. *)
Definition pullUnitEvent (cfg : Configuration) (img : ChartImage)
    (d : DigestInfo) (ev : Event) : Prop :=
  match ev with
  | Progress pb (PbAdd n) => pb = Bar cfg /\ n = 1
  | Progress pb (UpdateTitle _ _) => pb = Bar cfg
  | Progress pb (Warnf _ args) =>
      pb = Bar cfg /\ exists try, args = [AInt try; AInt (MaxRetries cfg)] /\ 0 < try
  | Debugf l _ _ => Log cfg = Some l
  | RemoteGet ref => ref = pinnedRef img d
  | CraneSave tag _ => tag = ImageRef img
  | _ => False
  end.

(** What a whole pull may append to the trace. *)
Definition pullEvent (cfg : Configuration) (lock : ImagesLock) (ev : Event)
  : Prop :=
  ev = Progress (Bar cfg) (WithTotal (getNumberOfArtifacts (Images lock)))
  \/ ev = Progress (Bar cfg) (UpdateTitle "Pulling Images" [])
  \/ ev = Progress (Bar cfg) Start
  \/ ev = Progress (Bar cfg) Stop
  \/ exists img d, In img (Images lock) /\ In d (Digests img)
                   /\ pullUnitEvent cfg img d ev.

(** Properties of the world that neither the clock nor the trace affect. *)
Class Stable (I : World -> Prop) : Prop := {
  stable_tick : forall w, I w -> I (tickW w);
  stable_emit : forall ev w, I w -> I (emitW ev w);
}.

(** [m], started in a world satisfying [I], ends in one satisfying [I], and
    every event it appends satisfies [P]. *)
Definition Runs {A} (I : World -> Prop) (P : Event -> Prop) (m : M A) : Prop :=
  forall w, I w ->
    I (m w).2 /\ exists evs, trace (m w).2 = trace w ++ evs /\ Forall P evs.


(** [add] is the manifest-list entry of Digest Entry [d]: the image held by
    the cached archive of [d] in file system [fs], described by its own
    descriptor, with the platform of its own configuration. *)
Definition indexEntryOf (env : Env) (fs : gmap string File) (imagesDir : string)
    (d : DigestInfo) (add : IndexAddendum) : Prop :=
  exists enc tag desc plat,
    Digest_Encoded (DigestOf d) = Some enc
    /\ fs !! filepath_Join env imagesDir (enc ++ ".tar")%string
       = Some (TarFile (Add add) tag)
    /\ partial_Descriptor (Add add) = inr desc
    /\ ConfigFile_Platform (Add add) = inr plat
    /\ AddDescriptor add = withPlatform desc plat.

(** [idx] is the multi-platform manifest list of Chart Image [img]: a
    Docker manifest list with one entry per Digest Entry, in order. *)
Definition manifestListOf (env : Env) (fs : gmap string File)
    (imagesDir : string) (img : ChartImage) (idx : ImageIndex) : Prop :=
  IndexMediaType idx = types_DockerManifestList
  /\ Forall2 (indexEntryOf env fs imagesDir) (Digests img) (IndexManifests idx).

(** What a whole push may append to the trace, [fs] being the file system
    it started from. *)
Definition pushEvent (env : Env) (cfg : Configuration) (lock : ImagesLock)
    (fs : gmap string File) (imagesDir : string) (ev : Event) : Prop :=
  match ev with
  | Progress pb (WithTotal n) =>
      pb = Bar cfg /\ n = Z.of_nat (length (Images lock))
  | Progress pb _ => pb = Bar cfg
  | Debugf l _ _ => Log cfg = Some l
  | RemoteWriteIndex ref idx _ =>
      exists img, In img (Images lock) /\ ref = ImageRef img
                  /\ manifestListOf env fs imagesDir img idx
  | CraneLoad _ => True
  | _ => False
  end.




Definition filesAre (fs : gmap string File) (w : World) : Prop := files w = fs.


(** The body of the (flattened) loop of [PullImages]. *)
Definition pullBody (env : Env) (cfg : Configuration) (imagesDir : string)
    (u : ChartImage * DigestInfo) : M unit :=
  pullUnit env cfg imagesDir u.1 u.2.

(** The world in which the loop of [PullImages] starts, [wm] being the world
    left by [os.MkdirAll]. *)
Definition pullHeader (cfg : Configuration) (lock : ImagesLock) (wm : World)
  : World :=
  emitW (Progress (Bar cfg) Start)
    (emitW (Progress (Bar cfg) (UpdateTitle "Pulling Images" []))
       (emitW (Progress (Bar cfg) (WithTotal (getNumberOfArtifacts (Images lock))))
          wm)).

(** The world in which the loop of [PushImages] starts. *)
Definition pushHeader (cfg : Configuration) (lock : ImagesLock) (w : World)
  : World :=
  emitW (Progress (Bar cfg) Start)
    (emitW (Progress (Bar cfg) (UpdateTitle "Pushing Images" []))
       (emitW (Progress (Bar cfg) (WithTotal (Z.of_nat (length (Images lock)))))
          w)).

Definition errCancelled : error := Errorf "cancelled execution" [].

(** The registry fetches among some events, in order. *)
Definition fetches (evs : list Event) : list string :=
  omap (fun ev => match ev with
                  | RemoteGet ref => Some ref
                  | _ => None
                  end) evs.

(** ** Further scenarios *)

Module Scenario.
Import Demo.

(** Cancellation arrives while the first archive is being written. *)
Definition ctxAt3 : Context := {| doneAt := Some 3%nat |}.

Definition cfgAt3 : Configuration := NewConfiguration env [WithContext ctxAt3].

(** The world left by [os.MkdirAll] started in [w0]. *)
Definition wMkdir : World := (os_MkdirAll env "images" w0).2.

(** The world in which the second unit of the pull is reached. *)
Definition wSecondUnit : World :=
  (forEach [(app, dAmd)] (pullBody env cfgAt3 "images")
     (pullHeader cfgAt3 lock wMkdir)).2.

(** A cache that already holds both archives. *)
Definition wPulled : World := (PullImages env lock "images" [] w0).2.

(** The world in which the only unit of the push is reached. *)
Definition wFirstPush : World := pushHeader cfgAt3 lock wPulled.




End Scenario.


(** The world in which the retries of a pull unit start, [w1] being the
    world in which the unit is reached with the context not cancelled. *)
Definition pullUnitStart (cfg : Configuration) (img : ChartImage)
    (d : DigestInfo) (w1 : World) : World :=
  emitW (Progress (Bar cfg)
           (UpdateTitle "Saving image %s/%s %s (%s)"
              [AStr (Chart img); AStr (Name img); AStr (ImageRef img);
               AStr (Arch d)]))
    (emitW (Progress (Bar cfg) (PbAdd 1)) (tickW w1)).



(** Number of requests sent to the registry among some events: each is one
    transfer attempt of a pull unit ([remote.Get]) or of a push unit
    ([remote.WriteIndex]). *)
Definition isRegistryCall (ev : Event) : bool :=
  match ev with
  | RemoteGet _ => true
  | RemoteWriteIndex _ _ _ => true
  | _ => false
  end.

Definition registryCalls (evs : list Event) : nat :=
  length (List.filter isRegistryCall evs).

Definition noCall (ev : Event) : Prop := isRegistryCall ev = false.

(** [m] sends at most [n] requests to the registry. *)
Definition AtMost {A} (n : nat) (m : M A) : Prop :=
  forall w, (registryCalls (events m w) <= n)%nat.


(** ** Cache contents *)

(** The archive a pull unit stores when the registry answers as it does at
    instant 0: the path in the cache, named after the encoded digest, and the
    tarball. [None] when the digest or the reference is malformed or the
    registry refuses. *)
Definition unitWrite (env : Env) (imagesDir : string)
    (u : ChartImage * DigestInfo) : option (string * File) :=
  match Digest_Encoded (DigestOf u.2) with
  | None => None
  | Some enc =>
      match name_ParseReference_err env (pinnedRef u.1 u.2) with
      | Some _ => None
      | None =>
          match remote_Get env 0 (pinnedRef u.1 u.2) with
          | inl _ => None
          | inr rmt =>
              match Descriptor_Image rmt with
              | inl _ => None
              | inr im =>
                  Some (filepath_Join env imagesDir (enc ++ ".tar")%string,
                        TarFile im (ImageRef u.1))
              end
          end
      end
  end.

(** The cache after the archives of [us] were stored in order. *)
Definition writeAll (env : Env) (imagesDir : string)
    (us : list (ChartImage * DigestInfo)) (fs : gmap string File)
  : gmap string File :=
  fold_left (fun m u => match unitWrite env imagesDir u with
                        | Some (p, f) => <[p := f]> m
                        | None => m
                        end) us fs.

Definition sameFS (fs : gmap string File) (ds : gset string) (w : World) : Prop :=
  files w = fs /\ dirs w = ds.

(** [m] leaves the directories alone; unless it ends normally it leaves the
    files alone; when it ends normally it has stored [ow], outside any
    directory. *)
Definition UnitSpec {A} (ow : option (string * File)) (m : M A) : Prop :=
  forall w r w', m w = (r, w') ->
    dirs w' = dirs w
    /\ match r with
       | Ok _ => exists p f, ow = Some (p, f) /\ (p ∉ dirs w)
                             /\ files w' = <[p := f]> (files w)
       | _ => files w' = files w
       end.

(** No local I/O fault ever happens. *)
Definition noFaults (env : Env) : Prop := forall t, ioFault env t = None.

(** The registry answers a request for a pinned reference of the lock the
    same way at every instant. *)
Definition registryStable (env : Env) (lock : ImagesLock) : Prop :=
  forall img d t, In img (Images lock) -> In d (Digests img) ->
    remote_Get env t (pinnedRef img d) = remote_Get env 0 (pinnedRef img d).

(** ** testutil: reading a remote manifest list (testutil.go) *)

(** Serialisation libraries. *)
Record Codecs := {
  (* json.Unmarshal into a v1.IndexManifest; [None] on malformed input *)
  json_Unmarshal_IndexManifest : string -> option IndexManifest;
  (* the YAML form of a lock (package imagelock) *)
  imagelock_FromYAML : string -> error + ImagesLock;
  imagelock_ToYAML : ImagesLock -> string;
}.

(** [testutil.DigestData]. *)
Record DigestData := {
  DataDigest : string;
  DataArch : string;
}.

(** [img.Annotations["vnd.docker.reference.type"] == "attestation-manifest"];
    a missing key reads as the empty string. *)
Definition isAttestation (img : Descriptor) : bool :=
  String.eqb (default "" (Annotations img !! "vnd.docker.reference.type"))
             "attestation-manifest".

(** The cases [types.OCIManifestSchema1, types.DockerManifestSchema2] of the
    switch on the media type. *)
Definition isImageManifest (img : Descriptor) : bool :=
  String.eqb (MediaType img) types_OCIManifestSchema1
  || String.eqb (MediaType img) types_DockerManifestSchema2.

(** One iteration of the loop of [ReadRemoteImageManifest] over
    [idx.Manifests]; the state is [digests] and [allErrors]. *)
Definition readManifestEntry
    (acc : gmap string DigestData * option error) (img : Descriptor)
  : gmap string DigestData * option error :=
  let '(digests, allErrors) := acc in
  if isAttestation img then acc
  else if isImageManifest img then
    match DescPlatform img with
    | None => acc
    | Some plat =>
        let arch := (OS plat ++ "/" ++ Architecture plat)%string in
        (<[arch := {| DataDigest := Digest img; DataArch := arch |}]> digests,
         allErrors)
    end
  else
    (digests,
     errors_Join allErrors (Errorf "unknown media type %q" [AStr (MediaType img)])).

Definition readManifests (ms : list Descriptor)
  : gmap string DigestData * option error :=
  fold_left readManifestEntry ms (∅, None).

(** [ReadRemoteImageManifest(src)]: the digests by platform and the joined
    errors; the early returns hand back a nil map and are failures here. *)
Definition ReadRemoteImageManifest (env : Env) (codec : Codecs) (src : string)
  : M (gmap string DigestData * option error) :=
  ref <-- wrapErr (fun err => Errorf "failed to parse reference %q: %w"
                                [AStr src; AErr err])
            (name_ParseReference env src) ;;
  desc <-- wrapErr (fun err => Errorf "failed to get remote image: %w" [AErr err])
             (do_remote_Get env ref) ;;
  match json_Unmarshal_IndexManifest codec (Manifest desc) with
  | None => fail (Errorf "failed to parse images data" [])
  | Some idx => ret (readManifests (Manifests idx))
  end.

(** An entry that ends up in the result: not an attestation, an image
    manifest, with a platform. *)
Definition isDeployable (img : Descriptor) : bool :=
  negb (isAttestation img) && isImageManifest img
  && bool_decide (is_Some (DescPlatform img)).

(** Where an entry of the result comes from: an entry [d] of the manifest
    list that is no attestation, is an image manifest and has a platform. *)
Definition entryFrom (ms : list Descriptor) (arch : string) (dd : DigestData)
  : Prop :=
  exists d plat,
    In d ms /\ isAttestation d = false /\ isImageManifest d = true
    /\ DescPlatform d = Some plat
    /\ arch = (OS plat ++ "/" ++ Architecture plat)%string
    /\ dd = {| DataDigest := Digest d; DataArch := arch |}.

(** ** cmd/dt: packing a chart (pull.go) *)

(** What the commands use of a [chartutils.Chart]: [Name()],
    [Metadata.Version], [RootDir()] and [ImagesDir()]. *)
Record chartutils_Chart := {
  ChartName : string;
  ChartVersion : string;
  ChartRootDir : string;
  ChartImagesDir : string;
}.

(** [utils.TarConfig]. *)
Record TarConfig := { Prefix : string }.

(** [stripPrefix pre s] is [Some rest] when [s] is [pre] followed by
    [rest]. *)
Fixpoint stripPrefix (pre s : string) : option string :=
  match pre with
  | EmptyString => Some s
  | String a pre' =>
      match s with
      | String b s' => if Ascii.eqb a b then stripPrefix pre' s' else None
      | EmptyString => None
      end
  end.

(** The files below directory [dir], by their path relative to [dir]. *)
Definition filesUnder (dir : string) (fs : gmap string File)
  : list (string * File) :=
  omap (fun pf => match stripPrefix (dir ++ "/") pf.1 with
                  | Some rel => Some (rel, pf.2)
                  | None => None
                  end) (map_to_list fs).

(** Modelled from the spec: [utils.TarContext] (package utils is not part
    of the sources at hand).  It writes to [outputFile] one compressed
    archive holding every file below [dir], each under the path prefix
    [cfg.Prefix]; it fails on an I/O fault.  The spec says nothing of the
    context, which the model leaves unused. *)
Definition utils_TarContext (env : Env) (ctx : Context) (dir outputFile : string)
    (cfg : TarConfig) : M unit :=
  t <-- tick ;;
  match ioFault env t with
  | Some e => fail e
  | None =>
      fun w =>
        (Ok tt,
         setFile outputFile
           (ArchiveFile
              (map (fun rf => ((Prefix cfg ++ "/" ++ rf.1)%string, rf.2))
                   (filesUnder dir (files w))))
           w)
  end.

Definition compressChart (env : Env) (ctx : Context) (chart : chartutils_Chart)
    (outputFile : string) : M unit :=
  utils_TarContext env ctx (ChartRootDir chart) outputFile
    {| Prefix := (ChartName chart ++ "-" ++ ChartVersion chart)%string |}.

(** ** cmd/dt: collaborators of the commands *)

(** One image declared by a chart's annotations. *)
Record Declared := {
  dName : string;
  dImage : string;
  dChartPath : string;
}.

(** [pflag.FlagSet]: the outcome of [flags.GetString("version")]. *)
Record FlagSet := { flag_version : error + string }.

(** Functions of this repository and of libraries that the commands call
    and that are not part of the sources at hand. *)
Record Tools := {
  getGlobalTempWorkDir : error + string;
  utils_FetchRemoteChart : string -> string -> string -> M string;
  untarChart : string -> string -> M string;
  chartutils_LoadChart : gmap string File -> string -> error + chartutils_Chart;
  getImageLockFilePath : string -> error + string;
  filepath_Abs : string -> error + string;
  filepath_Dir : string -> string;
  (* declared-image extraction from the chart at a path, for a key *)
  listDeclaredImages : gmap string File -> string -> string
                       -> error + list Declared;
  (* registry introspection at an instant: the (platform, digest) pairs an
     image reference resolves to, attestations already left out *)
  resolveImage : nat -> string -> error + list DigestInfo;
}.

Definition imagelock_DefaultImagesLockFileName : string := "Images.lock".

(** The global [terminalSpacer] of root.go. *)
Definition terminalSpacer : string := "".

(** *** Section logger ([log.SectionLogger]), seen through the trace. *)

(** [l.ExecuteStep(title, fn)]: announces the step and runs [fn]; the title
    is kept as a format and its arguments. *)
Definition ExecuteStep {A} (title : string) (args : list fmt_arg) (fn : M A)
  : M A :=
  emit (Logf "step" title args) ;;; fn.

(** [return l.Failf(format, args...)]: logs, and returns a logged error. *)
Definition Failf {A} (format : string) (args : list fmt_arg) : M A :=
  emit (Logf "error" format args) ;;;
  fail (LoggedError (Errorf format args)).

(** [if err := m; err != nil { return l.Failf(format, args..., err) }]. *)
Definition orFailf {A} (format : string) (args : error -> list fmt_arg)
    (m : M A) : M A :=
  fun w =>
    match m w with
    | (Err e, w') => Failf format (args e) w'
    | r => r
    end.

(** [l.Section(title, fn)]: opens a section and runs [fn] on the child
    logger, whose progress bar is the section's. *)
Definition childLog : Logger := {| loggerName := "section" |}.
Definition childLog_ProgressBar : ProgressBar := {| barName := "section" |}.

Definition Section_ {A} (format : string) (args : list fmt_arg) (fn : M A)
  : M A :=
  emit (Logf "section" format args) ;;; fn.

Definition Infof (format : string) (args : list fmt_arg) : M unit :=
  emit (Logf "info" format args).

(** *** Files *)

(** [os.ReadFile]. *)
Definition os_ReadFile (env : Env) (path : string) : M string :=
  t <-- tick ;;
  match ioFault env t with
  | Some e => fail e
  | None =>
      fun w =>
        match files w !! path with
        | Some (DataFile content) => (Ok content, w)
        | Some _ => (Err (LibError "read: not a text file"), w)
        | None => (Err (LibError "open: no such file"), w)
        end
  end.

(** [os.WriteFile]: a fault leaves a truncated file behind. *)
Definition os_WriteFile (env : Env) (path content : string) : M unit :=
  t <-- tick ;;
  fun w =>
    if decide (path ∈ dirs w) then (Err (LibError "open: is a directory"), w)
    else
      match ioFault env t with
      | Some e => (Err e, setFile path TruncatedFile w)
      | None => (Ok tt, setFile path (DataFile content) w)
      end.

(** [utils.FileExists]: does [os.Stat] find the path, file or directory? *)
Definition utils_FileExists (path : string) : M bool :=
  fun w => (Ok (bool_decide (is_Some (files w !! path))
                || bool_decide (path ∈ dirs w)), w).

(** [utils.IsTarFile]: decided from the content, not from the name. *)
Definition utils_IsTarFile (path : string) : M bool :=
  fun w => (Ok match files w !! path with
               | Some (ArchiveFile _) => true
               | _ => false
               end, w).

(** [imagelock.FromYAMLFile]. *)
Definition imagelock_FromYAMLFile (env : Env) (codec : Codecs) (path : string)
  : M ImagesLock :=
  content <-- os_ReadFile env path ;;
  lift (imagelock_FromYAML codec content).

(** ** The lock generator and verifier *)

Definition keepPlatforms (platforms : list string) (resolved : list DigestInfo)
  : list DigestInfo :=
  match platforms with
  | [] => resolved
  | _ => List.filter (fun d => bool_decide (Arch d ∈ platforms)) resolved
  end.

(** Modelled from the spec: one step of the Lock Generator.  The registry is
    asked what the declared image resolves to; with a non-empty platform
    filter the other platforms are dropped; an image left with no platform
    is an error; a registry failure aborts. *)
Definition generateImage (tools : Tools) (platforms : list string)
    (decl : Declared) : M ChartImage :=
  t <-- tick ;;
  resolved <-- lift (resolveImage tools t (dImage decl)) ;;
  match keepPlatforms platforms resolved with
  | [] => fail (Errorf "NoPlatformsResolved: %s" [AStr (dImage decl)])
  | kept => ret {| Name := dName decl; ImageRef := dImage decl;
                   Chart := dChartPath decl; Digests := kept |}
  end.

Fixpoint generateImages (tools : Tools) (platforms : list string)
    (decls : list Declared) : M (list ChartImage) :=
  match decls with
  | [] => ret []
  | decl :: rest =>
      img <-- generateImage tools platforms decl ;;
      imgs <-- generateImages tools platforms rest ;;
      ret (img :: imgs)
  end.

(** Modelled from the spec: the Lock Generator.  The declared images are
    read from the chart under the annotations key, then resolved one by one
    in declaration order. *)
Definition imagelock_Generate (tools : Tools) (annotationsKey chartPath : string)
    (platforms : list string) : M ImagesLock :=
  chart <-- (fun w => lift (chartutils_LoadChart tools (files w) chartPath) w) ;;
  decls <-- (fun w => lift (listDeclaredImages tools (files w) chartPath
                              annotationsKey) w) ;;
  imgs <-- generateImages tools platforms decls ;;
  ret {| LockChartName := ChartName chart;
         LockChartVersion := ChartVersion chart;
         Images := imgs |}.

(** The (name, image, platform, digest) tuples of a lock. *)
Definition lockTuples (lock : ImagesLock)
  : list (string * string * string * string) :=
  flat_map (fun img => map (fun d => (Name img, ImageRef img, Arch d, DigestOf d))
                           (Digests img))
           (Images lock).

(** Modelled from the spec: [verifyLock] of cmd/dt.  The persisted lock is
    read, a lock is generated afresh in memory, and the two are compared as
    multisets of (name, image, platform, digest); any difference is a drift
    error.  Nothing is written. *)
Definition verifyLock (env : Env) (codec : Codecs) (tools : Tools)
    (chartPath lockFile : string) : M unit :=
  persisted <-- imagelock_FromYAMLFile env codec lockFile ;;
  current <-- imagelock_Generate tools (imagelock_DefaultAnnotationsKey env)
                chartPath [] ;;
  if decide (lockTuples persisted ≡ₚ lockTuples current) then ret tt
  else fail (Errorf "DriftError: Images.lock does not match the chart" []).

(** Modelled from the spec: [createImagesLock] of cmd/dt.  A lock is
    generated from the chart's annotations for the given platforms and
    written, serialised, to [lockFile]. *)
Definition createImagesLock (env : Env) (codec : Codecs) (tools : Tools)
    (chartPath lockFile : string) (platforms : list string) (ctx : Context)
  : M unit :=
  lock <-- imagelock_Generate tools (imagelock_DefaultAnnotationsKey env)
             chartPath platforms ;;
  os_WriteFile env lockFile (imagelock_ToYAML codec lock).

(** ** cmd/dt: pull.go *)

Definition pullChartImages (env : Env) (codec : Codecs)
    (chart : chartutils_Chart) (opts : list Option) : M unit :=
  let chartRoot := ChartRootDir chart in
  let imagesDir := ChartImagesDir chart in
  let lockFile := filepath_Join env chartRoot imagelock_DefaultImagesLockFileName in
  lock <-- wrapErr (fun _ => Errorf "failed to read Images.lock file" [])
             (imagelock_FromYAMLFile env codec lockFile) ;;
  wrapErr (fun err => Errorf "failed to pull images: %v" [AErr err])
    (PullImages env lock imagesDir opts).

(** The section [Pulling images into ...] shared by the pull and wrap
    commands. *)
Definition pullSection (env : Env) (codec : Codecs) (ctx : Context)
    (chart : chartutils_Chart) : M unit :=
  Section_ "Pulling images into %q" [AStr (ChartImagesDir chart)]
    (orFailf "%v" (fun e => [AErr e])
       (pullChartImages env codec chart
          [WithLog childLog; WithContext ctx;
           WithProgressBar childLog_ProgressBar]) ;;;
     Infof "All images pulled successfully" []).

(** The [RunE] function of [newPullCommand]; [ctx] is the context made by
    [contextWithSigterm]. *)
Definition pullCommand (env : Env) (codec : Codecs) (tools : Tools)
    (ctx : Context) (chartPath outputFile : string) : M unit :=
  chart <-- wrapErr (fun err => Errorf "failed to load chart: %w" [AErr err])
              (fun w => lift (chartutils_LoadChart tools (files w) chartPath) w) ;;
  orFailf "%w" (fun e => [AErr e]) (pullSection env codec ctx chart) ;;;
  (if String.eqb outputFile "" then ret tt
   else
     orFailf "failed to compress chart: %w" (fun e => [AErr e])
       (ExecuteStep "Compressing chart into %q" [AStr outputFile]
          (compressChart env ctx chart outputFile)) ;;;
     Infof "Helm chart compressed to %q" [AStr outputFile]) ;;;
  let successMessage :=
    if String.eqb outputFile ""
    then Logf "success" "All images pulled successfully into %q"
              [AStr (ChartImagesDir chart)]
    else Logf "success"
              "All images pulled successfully and chart compressed into %q"
              [AStr outputFile] in
  emit (Logf "print" terminalSpacer []) ;;;
  emit successMessage.

(** ** cmd/dt: wrap.go *)

Definition resolveInputChartPath (tools : Tools) (inputPath : string)
    (flags : FlagSet) : M string :=
  tmpDir <-- lift (getGlobalTempWorkDir tools) ;;
  if String.prefix "oci://" inputPath then
    chartPath <-- orFailf "Failed to download Helm chart: %w" (fun e => [AErr e])
                    (ExecuteStep "Fetching remote Helm chart" []
                       (version <-- wrapErr (fun err =>
                                      Errorf "failed to retrieve version flag: %w"
                                             [AErr err])
                                      (lift (flag_version flags)) ;;
                        utils_FetchRemoteChart tools inputPath version tmpDir)) ;;
    Infof "Helm chart downloaded to %q" [AStr chartPath] ;;;
    ret chartPath
  else
    isTar <-- utils_IsTarFile inputPath ;;
    if (isTar : bool) then
      chartPath <-- orFailf "Failed to uncompress %q: %w"
                      (fun e => [AStr inputPath; AErr e])
                      (ExecuteStep "Uncompressing Helm chart" []
                         (untarChart tools inputPath tmpDir)) ;;
      Infof "Helm chart uncompressed to %q" [AStr chartPath] ;;;
      ret chartPath
    else ret inputPath.

(** Lines 41 to 64 of [wrapChart]: verify the lock when the file exists,
    generate it otherwise. *)
Definition wrapChart_lock (env : Env) (codec : Codecs) (tools : Tools)
    (ctx : Context) (chartPath lockFile : string) (platforms : list string)
  : M unit :=
  found <-- utils_FileExists lockFile ;;
  if (found : bool) then
    orFailf "Failed to verify lock: %w" (fun e => [AErr e])
      (ExecuteStep "Verifying Images.lock" []
         (verifyLock env codec tools chartPath lockFile)) ;;;
    Infof "Helm chart %q lock is valid" [AStr chartPath]
  else
    orFailf "Failed to generate lock: %w" (fun e => [AErr e])
      (ExecuteStep
         "Images.lock file does not exist. Generating it from annotations..." []
         (createImagesLock env codec tools chartPath lockFile platforms ctx)) ;;;
    Infof "Images.lock file written to %q" [AStr lockFile].

(** Lines 65 to 71 of [wrapChart]: the output file when none was asked
    for. *)
Definition wrapChart_output (env : Env) (tools : Tools)
    (chart : chartutils_Chart) (outputFile : string) : M string :=
  if String.eqb outputFile "" then
    let outputBaseName :=
      (ChartName chart ++ "-" ++ ChartVersion chart ++ ".wrap.tgz")%string in
    match filepath_Abs tools outputBaseName with
    | inr abs => ret abs
    | inl err =>
        emit (Logf "debug" "failed to normalize output file: %v" [AErr err]) ;;;
        ret (filepath_Join env (filepath_Dir tools (ChartRootDir chart))
               outputBaseName)
    end
  else ret outputFile.

(** Lines 72 to 100 of [wrapChart]: pull, compress, report. *)
Definition wrapChart_finish (env : Env) (codec : Codecs) (ctx : Context)
    (chart : chartutils_Chart) (outputFile : string) : M unit :=
  pullSection env codec ctx chart ;;;
  orFailf "failed to wrap Helm chart: %w" (fun e => [AErr e])
    (ExecuteStep "Compressing Helm chart..." []
       (compressChart env ctx chart outputFile)) ;;;
  Infof "Compressed into %q" [AStr outputFile] ;;;
  emit (Logf "print" terminalSpacer []) ;;;
  emit (Logf "success" "Helm chart wrapped into %q" [AStr outputFile]).

Definition wrapChart (env : Env) (codec : Codecs) (tools : Tools)
    (ctx : Context) (inputPath outputFile : string) (platforms : list string)
    (flags : FlagSet) : M unit :=
  emit (Logf "section" "Wrapping Helm chart %q" [AStr inputPath]) ;;;
  chartPath <-- resolveInputChartPath tools inputPath flags ;;
  chart <-- wrapErr (fun err => Errorf "failed to load Helm chart: %w" [AErr err])
              (fun w => lift (chartutils_LoadChart tools (files w) chartPath) w) ;;
  lockFile <-- wrapErr (fun err =>
                 Errorf "failed to determine Images.lock file location: %w"
                        [AErr err])
                 (lift (getImageLockFilePath tools chartPath)) ;;
  wrapChart_lock env codec tools ctx chartPath lockFile platforms ;;;
  outputFile' <-- wrapChart_output env tools chart outputFile ;;
  wrapChart_finish env codec ctx chart outputFile'.

(** The [RunE] function of [newWrapCommand]: an error that was logged
    already is replaced by a short one. *)
Definition wrapCommand (env : Env) (codec : Codecs) (tools : Tools)
    (ctx : Context) (chartPath outputFile : string) (platforms : list string)
    (flags : FlagSet) : M unit :=
  fun w =>
    match wrapChart env codec tools ctx chartPath outputFile platforms flags w with
    | (Err (LoggedError _), w') => (Err (Errorf "failed to wrap Helm chart" []), w')
    | r => r
    end.

(** [lock] is what the Lock Generator makes of the chart at [chartPath] in
    file system [fs] for the platform filter [platforms]: one Chart Image per
    declared image, in order, with the declared name and reference, holding
    the digests the registry resolved for it, cut down to [platforms] when
    the filter is not empty, and at least one of them. *)
Definition generatedFrom (tools : Tools) (key : string) (fs : gmap string File)
    (chartPath : string) (platforms : list string) (lock : ImagesLock) : Prop :=
  exists decls,
    listDeclaredImages tools fs chartPath key = inr decls
    /\ Forall2 (fun decl img =>
                  Name img = dName decl /\ ImageRef img = dImage decl
                  /\ Digests img <> []
                  /\ (platforms <> [] ->
                      Forall (fun d => Arch d ∈ platforms) (Digests img))
                  /\ exists t resolved,
                       resolveImage tools t (dImage decl) = inr resolved
                       /\ Digests img = keepPlatforms platforms resolved)
               decls (Images lock).

(** [m] leaves files and directories as they are, however it ends. *)
Definition Quiet {A} (m : M A) : Prop :=
  forall w, files (m w).2 = files w /\ dirs (m w).2 = dirs w.

(** ** A chart on disk *)

Module ChartScenario.
Import Demo.

Definition chart : chartutils_Chart :=
  {| ChartName := "demo"; ChartVersion := "1.0.0";
     ChartRootDir := "charts/demo"; ChartImagesDir := "charts/demo/images" |}.

Definition wChart : World :=
  {| files := {[ "charts/demo/Chart.yaml" := DataFile "name: demo" ]};
     dirs := {[ "charts/demo" ]};
     clock := 0; trace := [] |}.

(** A stand-in for the YAML form: the names of the Chart Images. *)
Definition toYAML (lock : ImagesLock) : string :=
  String.concat "," (map Name (Images lock)).

Definition codec : Codecs :=
  {| json_Unmarshal_IndexManifest := fun _ => None;
     imagelock_FromYAML := fun s =>
       if String.eqb s (toYAML lock) then inr lock
       else inl (LibError "yaml: cannot unmarshal");
     imagelock_ToYAML := toYAML |}.

Definition tools : Tools :=
  {| getGlobalTempWorkDir := inr "/tmp/dt";
     utils_FetchRemoteChart := fun _ _ _ => fail (LibError "no network");
     untarChart := fun _ _ => fail (LibError "not an archive");
     chartutils_LoadChart := fun _ p =>
       if String.eqb p "charts/demo" then inr chart
       else inl (LibError "Chart.yaml file is missing");
     getImageLockFilePath := fun p => inr (p ++ "/Images.lock")%string;
     filepath_Abs := fun s => inr ("/work/" ++ s)%string;
     filepath_Dir := fun _ => "charts";
     listDeclaredImages := fun _ _ _ =>
       inr [{| dName := "app"; dImage := "repo/app"; dChartPath := "demo" |}];
     resolveImage := fun _ _ => inr [dAmd; dArm] |}.

Definition flags : FlagSet := {| flag_version := inr "" |}.

End ChartScenario.

(** * Properties *)

Local Open Scope list_scope.

(** ** Events emitted by a computation *)

Lemma bind_Ok {A B} (m : M A) (k : A -> M B) w a w' :
  m w = (Ok a, w') -> bind m k w = k a w'.
Proof. intros H. unfold bind. now rewrite H. Qed.

Lemma bind_Err {A B} (m : M A) (k : A -> M B) w e w' :
  m w = (Err e, w') -> bind m k w = (Err e, w').
Proof. intros H. unfold bind. now rewrite H. Qed.

Lemma bind_Panic {A B} (m : M A) (k : A -> M B) w s w' :
  m w = (Panic s, w') -> bind m k w = (Panic s, w').
Proof. intros H. unfold bind. now rewrite H. Qed.

Lemma bind_Ok_inv {A B} (m : M A) (k : A -> M B) w b w' :
  bind m k w = (Ok b, w') ->
  exists a w1, m w = (Ok a, w1) /\ k a w1 = (Ok b, w').
Proof.
  unfold bind. destruct (m w) as [[a|e|s] w1]; intros H; try discriminate.
  eauto.
Qed.

Lemma wrapErr_Ok_inv {A} f (m : M A) w a w' :
  wrapErr f m w = (Ok a, w') -> m w = (Ok a, w').
Proof.
  unfold wrapErr. destruct (m w) as [[a0|e|s] w1]; intros H; congruence.
Qed.

Lemma events_spec {A} (m : M A) w evs :
  trace (m w).2 = trace w ++ evs -> events m w = evs.
Proof.
  intros H. unfold events. rewrite H. now rewrite drop_app_length.
Qed.

Lemma Emits_events {A} P (m : M A) w :
  Emits P m -> trace (m w).2 = trace w ++ events m w /\ Forall P (events m w).
Proof.
  intros H. destruct (H w) as (evs & E & F).
  rewrite (events_spec _ _ _ E). auto.
Qed.

Lemma Emits_weaken {A} (P Q : Event -> Prop) (m : M A) :
  (forall ev, P ev -> Q ev) -> Emits P m -> Emits Q m.
Proof.
  intros HPQ H w. destruct (H w) as (evs & E & F).
  exists evs. split; [exact E|]. eapply Forall_impl; eauto.
Qed.

Lemma Emits_ret {A} P (a : A) : Emits P (ret a).
Proof. intros w. exists []. simpl. now rewrite app_nil_r. Qed.

Lemma Emits_fail {A} P e : Emits P (@fail A e).
Proof. intros w. exists []. simpl. now rewrite app_nil_r. Qed.

Lemma Emits_panic {A} P s : Emits P (@panic A s).
Proof. intros w. exists []. simpl. now rewrite app_nil_r. Qed.

Lemma Emits_tick P : Emits P tick.
Proof. intros w. exists []. simpl. now rewrite app_nil_r. Qed.

Lemma Emits_emit (P : Event -> Prop) ev : P ev -> Emits P (emit ev).
Proof. intros H w. exists [ev]. simpl. auto. Qed.

Lemma Emits_lift {A} P (r : error + A) : Emits P (lift r).
Proof. destruct r; [apply Emits_fail | apply Emits_ret]. Qed.

Lemma Emits_return_error P e : Emits P (return_error e).
Proof. destruct e; [apply Emits_fail | apply Emits_ret]. Qed.

Lemma Emits_bind {A B} P (m : M A) (k : A -> M B) :
  Emits P m -> (forall a, Emits P (k a)) -> Emits P (bind m k).
Proof.
  intros Hm Hk w. unfold bind.
  destruct (Hm w) as (evs & E & F).
  destruct (m w) as [[a|e|s] w1]; simpl in *.
  - destruct (Hk a w1) as (evs' & E' & F').
    exists (evs ++ evs'). rewrite E', E, app_assoc. split; [easy|].
    apply Forall_app; auto.
  - exists evs; auto.
  - exists evs; auto.
Qed.

Lemma Emits_wrapErr {A} P f (m : M A) : Emits P m -> Emits P (wrapErr f m).
Proof.
  intros Hm w. unfold wrapErr. destruct (Hm w) as (evs & E & F).
  destruct (m w) as [[a|e|s] w1]; simpl in *; exists evs; auto.
Qed.

Lemma Emits_deferred {A} (P : Event -> Prop) ev (body : M A) :
  P ev -> Emits P body -> Emits P (deferred (emitW ev) body).
Proof.
  intros Hev Hb w. unfold deferred. destruct (Hb w) as (evs & E & F).
  destruct (body w) as [r w1]. simpl in *.
  exists (evs ++ [ev]). rewrite E, app_assoc. split; [easy|].
  apply Forall_app; auto.
Qed.

Lemma Emits_forEach {A} P (l : list A) (body : A -> M unit) :
  (forall x, In x l -> Emits P (body x)) -> Emits P (forEach l body).
Proof.
  induction l as [|x l IH]; intros H; simpl.
  - apply Emits_ret.
  - apply Emits_bind; [apply H; now left|].
    intros _. apply IH. intros y Hy. apply H. now right.
Qed.

Lemma Emits_retryFrom P left : forall try prevErr cb,
  (forall t e, Emits P (cb t e)) -> Emits P (retryFrom left try prevErr cb).
Proof.
  induction left as [|left IH]; intros try prevErr cb Hcb w; simpl;
    destruct (Hcb try prevErr w) as (evs & E & F);
    destruct (cb try prevErr w) as [[a|e|s] w1]; simpl in *;
    try (exists evs; now auto).
  destruct (IH (try + 1) (Some e) cb Hcb (tickW w1)) as (evs' & E' & F').
  exists (evs ++ evs'). rewrite E'. simpl. rewrite E, app_assoc.
  split; [easy|]. apply Forall_app; auto.
Qed.

Lemma Emits_ExecuteWithRetry P retries cb :
  (forall t e, Emits P (cb t e)) -> Emits P (ExecuteWithRetry retries cb).
Proof. apply Emits_retryFrom. Qed.

Ltac emits_raw :=
  let w := fresh "w" in
  intros w; exists []; rewrite app_nil_r; split; [|constructor]; simpl;
  repeat case_match; reflexivity.

Ltac emits :=
  repeat first
    [ apply Emits_ret | apply Emits_fail | apply Emits_panic
    | apply Emits_tick | apply Emits_lift | apply Emits_return_error
    | apply Emits_wrapErr
    | apply Emits_bind; [|intros ?]
    | apply Emits_ExecuteWithRetry; intros ? ? ].

Lemma Emits_ctx_Done P ctx : Emits P (ctx_Done ctx).
Proof. unfold ctx_Done. emits. Qed.

Lemma Emits_ctx_Err P ctx : Emits P (ctx_Err ctx).
Proof. unfold ctx_Err. emits. Qed.

Lemma Emits_os_MkdirAll P env path : Emits P (os_MkdirAll env path).
Proof.
  unfold os_MkdirAll. emits. destruct (ioFault env _); emits. emits_raw.
Qed.

Lemma Emits_crane_Save (P : Event -> Prop) env img tag path :
  P (CraneSave tag path) -> Emits P (crane_Save env img tag path).
Proof.
  intros H. unfold crane_Save. emits; [now apply Emits_emit | emits_raw].
Qed.

Lemma Emits_crane_Load (P : Event -> Prop) env path :
  P (CraneLoad path) -> Emits P (crane_Load env path).
Proof.
  intros H. unfold crane_Load. emits; [now apply Emits_emit |].
  destruct (ioFault env _); emits. emits_raw.
Qed.

Lemma Emits_name_ParseReference P env src : Emits P (name_ParseReference env src).
Proof. unfold name_ParseReference. destruct (name_ParseReference_err _ _); emits. Qed.

Lemma Emits_do_remote_Get (P : Event -> Prop) env ref :
  P (RemoteGet ref) -> Emits P (do_remote_Get env ref).
Proof. intros H. unfold do_remote_Get. emits. now apply Emits_emit. Qed.

Lemma Emits_do_remote_WriteIndex (P : Event -> Prop) env ref idx :
  (forall ok, P (RemoteWriteIndex ref idx ok)) ->
  Emits P (do_remote_WriteIndex env ref idx).
Proof.
  intros H. unfold do_remote_WriteIndex. emits.
  destruct (remote_WriteIndex env _ _ _); emits; now apply Emits_emit.
Qed.

Lemma Emits_log_Debugf (P : Event -> Prop) l format args :
  (forall lg, l = Some lg -> P (Debugf lg format args)) ->
  Emits P (log_Debugf l format args).
Proof.
  intros H. unfold log_Debugf. destruct l; emits. apply Emits_emit. now apply H.
Qed.

Lemma Emits_getImageTarFile P env dir d : Emits P (getImageTarFile env dir d).
Proof. unfold getImageTarFile. destruct (Digest_Encoded _); emits. Qed.

Ltac emits_all :=
  repeat first
    [ apply Emits_ret | apply Emits_fail | apply Emits_panic
    | apply Emits_tick | apply Emits_lift | apply Emits_return_error
    | apply Emits_ctx_Done | apply Emits_ctx_Err | apply Emits_os_MkdirAll
    | apply Emits_name_ParseReference | apply Emits_getImageTarFile
    | apply Emits_do_remote_Get | apply Emits_crane_Save
    | apply Emits_crane_Load | apply Emits_do_remote_WriteIndex; intros ?
    | apply Emits_log_Debugf; intros ? ?
    | apply Emits_emit
    | apply Emits_wrapErr
    | apply Emits_bind; [|intros ?]
    | apply Emits_ExecuteWithRetry; intros ? ? ].

(** ** Pull: what reaches the trace *)

Lemma name_ParseReference_Ok env src w ref w' :
  name_ParseReference env src w = (Ok ref, w') -> ref = src /\ w' = w.
Proof.
  unfold name_ParseReference. destruct (name_ParseReference_err _ _); simpl;
    intros H; inversion H; auto.
Qed.

Lemma Emits_bind_post {A B} P (Q : A -> Prop) (m : M A) (k : A -> M B) :
  Emits P m -> (forall w a w', m w = (Ok a, w') -> Q a) ->
  (forall a, Q a -> Emits P (k a)) -> Emits P (bind m k).
Proof.
  intros Hm HQ Hk w. unfold bind.
  destruct (Hm w) as (evs & E & F). specialize (HQ w).
  destruct (m w) as [[a|e|s] w1]; simpl in *.
  - destruct (Hk a (HQ _ _ eq_refl) w1) as (evs' & E' & F').
    exists (evs ++ evs'). rewrite E', E, app_assoc. split; [easy|].
    apply Forall_app; auto.
  - exists evs; auto.
  - exists evs; auto.
Qed.

Lemma Emits_pullImage env cfg img d dir :
  Emits (pullUnitEvent cfg img d) (pullImage env (ImageRef img) d dir).
Proof.
  unfold pullImage. apply Emits_bind; [apply Emits_getImageTarFile|].
  intros imgFileName.
  apply Emits_bind_post with (Q := fun ref => ref = pinnedRef img d).
  - emits_all.
  - intros w a w' H. apply wrapErr_Ok_inv in H.
    now apply name_ParseReference_Ok in H.
  - intros ref ->. emits_all; reflexivity.
Qed.

Lemma Emits_pullAttempt env cfg dir img d try prevErr :
  Emits (pullUnitEvent cfg img d) (pullAttempt env cfg dir img d try prevErr).
Proof.
  unfold pullAttempt. destruct (0 <? try)%Z eqn:Htry.
  - apply Z.ltb_lt in Htry. apply Emits_bind; [apply Emits_ctx_Err|].
    intros [|]; [apply Emits_return_error|].
    apply Emits_bind; [apply Emits_log_Debugf; intros lg H; exact H|]. intros _.
    apply Emits_bind; [apply Emits_emit; simpl; now eauto|]. intros _.
    apply Emits_bind; [apply Emits_pullImage | intros; apply Emits_ret].
  - apply Emits_bind; [apply Emits_pullImage | intros; apply Emits_ret].
Qed.

Lemma Emits_pullUnit env cfg dir img d :
  Emits (pullUnitEvent cfg img d) (pullUnit env cfg dir img d).
Proof.
  unfold pullUnit. apply Emits_bind; [apply Emits_ctx_Done|].
  intros [|]; [apply Emits_fail|].
  apply Emits_bind; [apply Emits_emit; simpl; now auto|]. intros _.
  apply Emits_bind; [apply Emits_emit; simpl; now auto|]. intros _.
  apply Emits_wrapErr, Emits_ExecuteWithRetry. intros t e.
  apply Emits_pullAttempt.
Qed.

Lemma Emits_PullImages env lock dir opts :
  Emits (pullEvent (NewConfiguration env opts) lock)
        (PullImages env lock dir opts).
Proof.
  unfold PullImages.
  apply Emits_bind; [apply Emits_wrapErr, Emits_os_MkdirAll|]. intros _.
  do 3 (apply Emits_bind; [apply Emits_emit; unfold pullEvent; now auto|];
        intros _).
  - apply Emits_deferred; [unfold pullEvent; now auto 6|].
    apply Emits_forEach. intros img Himg.
    apply Emits_forEach. intros d Hd.
    eapply Emits_weaken; [|apply Emits_pullUnit].
    intros ev Hev. do 4 right. eauto.
Qed.



Lemma tick_trace w a w' : tick w = (Ok a, w') -> trace w' = trace w.
Proof. intros H. inversion H. reflexivity. Qed.



Lemma Emits_True {A} P (m : M A) : Emits P m -> Emits (fun _ => True) m.
Proof. apply Emits_weaken. auto. Qed.





(** ** Pull: the progress total *)

Lemma getNumberOfArtifacts_from images : forall acc,
  fold_left (fun n imgDesc => n + Z.of_nat (length (Digests imgDesc))) images acc
  = acc + Z.of_nat (list_sum (map (fun img => length (Digests img)) images)).
Proof.
  induction images as [|img images IH]; intros acc; simpl.
  - lia.
  - rewrite IH. lia.
Qed.

Lemma getNumberOfArtifacts_sum lock :
  getNumberOfArtifacts (Images lock) = Z.of_nat (digestEntries lock).
Proof. unfold getNumberOfArtifacts. now rewrite getNumberOfArtifacts_from. Qed.

Lemma length_pullUnits lock : length (pullUnits lock) = digestEntries lock.
Proof.
  unfold pullUnits, digestEntries.
  induction (Images lock) as [|img l IH]; simpl; [reflexivity|].
  now rewrite length_app, length_map, IH.
Qed.

Lemma os_MkdirAll_trace env path w r w' :
  os_MkdirAll env path w = (r, w') -> trace w' = trace w.
Proof.
  unfold os_MkdirAll. cbv [bind tick]. simpl.
  destruct (ioFault env (clock w)); simpl.
  - intros H. now inversion H.
  - destruct (files w !! path); intros H; now inversion H.
Qed.

(** C2. The only total a pull announces on its progress bar is the number
    of Digest Entries of the lock, summed over its Chart Images; it is
    announced first, as soon as the cache directory exists.  That number is
    in general not the number of Chart Images. *)
Theorem C2_pull_total_is_digest_entries env lock imagesDir opts w :
  let cfg := NewConfiguration env opts in
  let evs := events (PullImages env lock imagesDir opts) w in
  let total :=
    Z.of_nat (list_sum (map (fun img => length (Digests img)) (Images lock))) in
  getNumberOfArtifacts (Images lock) = total
  /\ (forall pb n, In (Progress pb (WithTotal n)) evs -> n = total)
  /\ ((os_MkdirAll env imagesDir w).1 = Ok tt ->
      exists rest, evs = Progress (Bar cfg) (WithTotal total) :: rest)
  /\ (exists lock', getNumberOfArtifacts (Images lock')
                    <> Z.of_nat (length (Images lock'))).
Proof.
  intros cfg evs total.
  assert (Htotal : getNumberOfArtifacts (Images lock) = total)
    by apply getNumberOfArtifacts_sum.
  split; [exact Htotal|]. split; [|split].
  - intros pb n Hin.
    destruct (Emits_events _ _ w (Emits_PullImages env lock imagesDir opts))
      as [_ Hall].
    rewrite Forall_forall in Hall. apply list_elem_of_In, Hall in Hin.
    destruct Hin as [H|[H|[H|[H|H]]]]; try discriminate.
    + inversion H. now rewrite <- Htotal.
    + destruct H as (img & d & _ & _ & []).
  - intros Hmk. destruct (os_MkdirAll env imagesDir w) as [r w1] eqn:Emk.
    simpl in Hmk. subst r. pose proof (os_MkdirAll_trace _ _ _ _ _ Emk) as Htr.
    unfold evs, events, PullImages. cbv zeta.
    erewrite bind_Ok; [|unfold wrapErr; now rewrite Emk].
    erewrite (bind_Ok (emit _)); [|reflexivity].
    match goal with |- context [bind ?m ?k (emitW ?e w1)] =>
      assert (Hk : Emits (fun _ => True) (bind m k)) end.
    { do 2 (apply Emits_bind; [apply Emits_emit; auto|]; intros _).
      apply Emits_deferred; [auto|]. apply Emits_forEach. intros img _.
      apply Emits_forEach. intros d _. eapply Emits_True, Emits_pullUnit. }
    destruct (Hk (emitW (Progress (Bar (NewConfiguration env opts))
                           (WithTotal (getNumberOfArtifacts (Images lock)))) w1))
      as (rest & Hrest & _).
    exists rest. rewrite Hrest. simpl. rewrite Htr.
    rewrite <- app_assoc. rewrite drop_app_length. simpl.
    unfold cfg. now rewrite Htotal.
  - exists Demo.lock. vm_compute. discriminate.
Qed.

(** ** Computations that keep an invariant of the world *)

Section Invariant.

Context (I : World -> Prop) `{HI : !Stable I}.
Variable P : Event -> Prop.

Lemma Runs_ret {A} (a : A) : Runs I P (ret a).
Proof. intros w Hw. split; [exact Hw|]. exists []. simpl. now rewrite app_nil_r. Qed.


Lemma Runs_panic {A} s : Runs I P (@panic A s).
Proof. intros w Hw. split; [exact Hw|]. exists []. simpl. now rewrite app_nil_r. Qed.

Lemma Runs_tick : Runs I P tick.
Proof.
  intros w Hw. split; [now apply stable_tick|]. exists []. simpl.
  now rewrite app_nil_r.
Qed.

Lemma Runs_emit ev : P ev -> Runs I P (emit ev).
Proof.
  intros H w Hw. split; [now apply stable_emit|]. exists [ev]. simpl. auto.
Qed.



Lemma Runs_bind_post {A B} (Q : A -> Prop) (m : M A) (k : A -> M B) :
  Runs I P m -> (forall w a w', I w -> m w = (Ok a, w') -> Q a) ->
  (forall a, Q a -> Runs I P (k a)) -> Runs I P (bind m k).
Proof.
  intros Hm HQ Hk w Hw. unfold bind.
  destruct (Hm w Hw) as (Hw1 & evs & E & F). specialize (HQ w).
  destruct (m w) as [[a|e|s] w1]; simpl in *.
  - destruct (Hk a (HQ _ _ Hw eq_refl) w1 Hw1) as (Hw2 & evs' & E' & F').
    split; [exact Hw2|].
    exists (evs ++ evs'). rewrite E', E, app_assoc. split; [easy|].
    apply Forall_app; auto.
  - split; [exact Hw1|]. exists evs; auto.
  - split; [exact Hw1|]. exists evs; auto.
Qed.

Lemma Runs_bind {A B} (m : M A) (k : A -> M B) :
  Runs I P m -> (forall a, Runs I P (k a)) -> Runs I P (bind m k).
Proof.
  intros Hm Hk. apply Runs_bind_post with (Q := fun _ => True); auto.
Qed.





Lemma Runs_ctx_Done ctx : Runs I P (ctx_Done ctx).
Proof. apply Runs_bind; [apply Runs_tick | intros; apply Runs_ret]. Qed.

Lemma Runs_ctx_Err ctx : Runs I P (ctx_Err ctx).
Proof. apply Runs_bind; [apply Runs_tick | intros; apply Runs_ret]. Qed.



Lemma Runs_log_Debugf l format args :
  (forall lg, l = Some lg -> P (Debugf lg format args)) ->
  Runs I P (log_Debugf l format args).
Proof.
  intros H. unfold log_Debugf.
  destruct l; [apply Runs_emit; now apply H | apply Runs_panic].
Qed.



End Invariant.

(** ** Push: manifest lists *)

#[local] Instance filesAre_Stable fs : Stable (filesAre fs).
Proof. split; auto. Qed.






Section PushRuns.

Variables (env : Env) (cfg : Configuration) (lock : ImagesLock).
Variables (fs : gmap string File) (imagesDir : string).

Let I := filesAre fs.
Let P := pushEvent env cfg lock fs imagesDir.





End PushRuns.


(** ** Push: one write per Chart Image *)


















(** ** The loops, unit by unit *)

Lemma forEach_app {A} (l1 l2 : list A) (body : A -> M unit) w :
  forEach (l1 ++ l2) body w = (forEach l1 body ;;; forEach l2 body) w.
Proof.
  revert w. induction l1 as [|x l1 IH]; intros w; simpl.
  - reflexivity.
  - unfold bind. destruct (body x w) as [[[]|e|s] w1]; auto.
Qed.

Lemma forEach_map {A B} (f : A -> B) (l : list A) (body : B -> M unit) w :
  forEach (map f l) body w = forEach l (fun x => body (f x)) w.
Proof.
  revert w. induction l as [|x l IH]; intros w; simpl; [reflexivity|].
  unfold bind. destruct (body (f x) w) as [[[]|e|s] w1]; auto.
Qed.

Lemma forEach_flat {A B} (sub : A -> list B) (body : A -> B -> M unit)
    (l : list A) w :
  forEach l (fun x => forEach (sub x) (body x)) w
  = forEach (flat_map (fun x => map (pair x) (sub x)) l)
            (fun u => body u.1 u.2) w.
Proof.
  revert w. induction l as [|x l IH]; intros w; simpl; [reflexivity|].
  rewrite forEach_app. unfold bind.
  rewrite forEach_map. simpl.
  destruct (forEach (sub x) _ w) as [[[]|e|s] w1]; auto.
Qed.

(** A loop stops at the first element whose body does not end normally. *)
Lemma forEach_stops {A} (pre : list A) (x : A) (post : list A)
    (body : A -> M unit) w w1 :
  forEach pre body w = (Ok tt, w1) ->
  forEach (pre ++ x :: post) body w
  = match body x w1 with
    | (Ok _, w2) => forEach post body w2
    | r => r
    end.
Proof.
  intros Hpre. rewrite forEach_app. rewrite (bind_Ok _ _ _ _ _ Hpre). simpl.
  unfold bind. destruct (body x w1) as [[[]|e|s] w2]; reflexivity.
Qed.

Lemma PullImages_flat env lock dir opts w wm :
  os_MkdirAll env dir w = (Ok tt, wm) ->
  let cfg := NewConfiguration env opts in
  PullImages env lock dir opts w
  = deferred (emitW (Progress (Bar cfg) Stop))
      (forEach (pullUnits lock) (pullBody env cfg dir)) (pullHeader cfg lock wm).
Proof.
  intros Hmk cfg. unfold PullImages. fold cfg.
  erewrite bind_Ok; [|unfold wrapErr; now rewrite Hmk].
  cbv [bind emit]. fold (pullHeader cfg lock wm).
  unfold deferred. rewrite forEach_flat. reflexivity.
Qed.

Lemma PushImages_flat env lock dir opts w :
  let cfg := NewConfiguration env opts in
  PushImages env lock dir opts w
  = deferred (emitW (Progress (Bar cfg) Stop))
      (forEach (Images lock) (pushUnit env cfg dir)) (pushHeader cfg lock w).
Proof. reflexivity. Qed.

Lemma pullUnit_cancelled env cfg dir img d w :
  is_done (Ctx cfg) (clock w) = true ->
  pullUnit env cfg dir img d w = (Err errCancelled, tickW w).
Proof. intros H. unfold pullUnit. cbv [bind ctx_Done tick ret]. simpl. now rewrite H. Qed.

Lemma pushUnit_cancelled env cfg dir img w :
  is_done (Ctx cfg) (clock w) = true ->
  pushUnit env cfg dir img w = (Err errCancelled, tickW w).
Proof. intros H. unfold pushUnit. cbv [bind ctx_Done tick ret]. simpl. now rewrite H. Qed.

(** C5. Pull and push look at the cancellation signal at the start of every
    transfer unit.  When the units before [u] went through and the signal is
    set as [u] is reached, the call returns the cancellation error, and the
    world it leaves is the one in which [u] was reached, plus the stop of the
    progress bar: nothing was attempted, reported or logged for [u] or any
    later unit, and the error is not a transfer failure. *)
Theorem C5_cancellation_at_unit_boundary env lock imagesDir opts :
  let cfg := NewConfiguration env opts in
  (forall w wm pre u post w1,
      os_MkdirAll env imagesDir w = (Ok tt, wm) ->
      pullUnits lock = pre ++ u :: post ->
      forEach pre (pullBody env cfg imagesDir) (pullHeader cfg lock wm) = (Ok tt, w1) ->
      is_done (Ctx cfg) (clock w1) = true ->
      PullImages env lock imagesDir opts w
      = (Err (Errorf "cancelled execution" []),
         emitW (Progress (Bar cfg) Stop) (tickW w1)))
  /\ (forall w pre u post w1,
      Images lock = pre ++ u :: post ->
      forEach pre (pushUnit env cfg imagesDir) (pushHeader cfg lock w) = (Ok tt, w1) ->
      is_done (Ctx cfg) (clock w1) = true ->
      PushImages env lock imagesDir opts w
      = (Err (Errorf "cancelled execution" []),
         emitW (Progress (Bar cfg) Stop) (tickW w1)))
  /\ (forall img d w,
      (pullUnit env cfg imagesDir img d w).1 = Err (Errorf "cancelled execution" [])
      <-> is_done (Ctx cfg) (clock w) = true)
  /\ (forall img w,
      (pushUnit env cfg imagesDir img w).1 = Err (Errorf "cancelled execution" [])
      <-> is_done (Ctx cfg) (clock w) = true).
Proof.
  intros cfg. split; [|split; [|split]].
  - intros w wm pre [img d] post w1 Hmk Hunits Hpre Hdone.
    rewrite (PullImages_flat _ _ _ _ _ _ Hmk). fold cfg.
    unfold deferred. rewrite Hunits, (forEach_stops _ _ _ _ _ _ Hpre).
    unfold pullBody at 1. simpl. now rewrite pullUnit_cancelled.
  - intros w pre u post w1 Hunits Hpre Hdone.
    rewrite PushImages_flat. fold cfg.
    unfold deferred. rewrite Hunits, (forEach_stops _ _ _ _ _ _ Hpre).
    now rewrite pushUnit_cancelled.
  - intros img d w. split.
    + destruct (is_done (Ctx cfg) (clock w)) eqn:Hd; [reflexivity|].
      unfold pullUnit. cbv [bind ctx_Done tick ret emit wrapErr]. simpl.
      rewrite Hd. destruct (ExecuteWithRetry _ _ _) as [[[]|e|s] w']; discriminate.
    + intros Hd. now rewrite pullUnit_cancelled.
  - intros img w. split.
    + destruct (is_done (Ctx cfg) (clock w)) eqn:Hd; [reflexivity|].
      unfold pushUnit. cbv [bind ctx_Done tick ret emit wrapErr]. simpl.
      rewrite Hd. destruct (ExecuteWithRetry _ _ _) as [[[]|e|s] w']; discriminate.
    + intros Hd. now rewrite pushUnit_cancelled.
Qed.

Lemma C5_cancellation_witness :
  (PullImages Demo.env Demo.lock "images" [WithContext Scenario.ctxAt3] Demo.w0).1
    = Err (Errorf "cancelled execution" [])
  /\ (PushImages Demo.env Demo.lock "images" [WithContext Scenario.ctxAt3]
        Scenario.wPulled).1
    = Err (Errorf "cancelled execution" []).
Proof.
  destruct (C5_cancellation_at_unit_boundary Demo.env Demo.lock "images"
              [WithContext Scenario.ctxAt3]) as (Hpull & Hpush & _).
  split.
  - rewrite (Hpull Demo.w0 Scenario.wMkdir [(Demo.app, Demo.dAmd)]
               (Demo.app, Demo.dArm) [] Scenario.wSecondUnit);
      [reflexivity | vm_compute; reflexivity | reflexivity
      | vm_compute; reflexivity | vm_compute; reflexivity].
  - rewrite (Hpush Scenario.wPulled [] Demo.app [] Scenario.wFirstPush);
      [reflexivity | reflexivity | reflexivity | vm_compute; reflexivity].
Defined.

(** ** Pull: a unit that is given up *)

Lemma pullUnit_started env cfg dir img d w :
  is_done (Ctx cfg) (clock w) = false ->
  pullUnit env cfg dir img d w
  = wrapErr (fun err => Errorf "failed to pull image %q: %w"
                          [AStr (Name img); AErr err])
      (ExecuteWithRetry (MaxRetries cfg) (pullAttempt env cfg dir img d))
      (pullUnitStart cfg img d w).
Proof.
  intros H. unfold pullUnit. cbv [bind ctx_Done tick ret emit]. simpl.
  now rewrite H.
Qed.




(** ** Retries *)



Lemma registryCalls_noCall evs : Forall noCall evs -> registryCalls evs = 0%nat.
Proof.
  unfold registryCalls. induction 1 as [|ev evs Hev _ IH]; [reflexivity|].
  simpl. now rewrite Hev.
Qed.




Lemma AtMost_noCall {A} n (m : M A) : Emits noCall m -> AtMost n m.
Proof.
  intros H w. destruct (Emits_events _ _ w H) as [_ Hall].
  rewrite registryCalls_noCall by assumption. lia.
Qed.



















(** ** Pull: the cache *)

#[local] Instance sameFS_Stable fs ds : Stable (sameFS fs ds).
Proof. split; auto. Qed.

Lemma writeAll_union env dir us : forall m,
  writeAll env dir us m = writeAll env dir us ∅ ∪ m.
Proof.
  unfold writeAll. induction us as [|u us IH]; intros m; simpl.
  - now rewrite (left_id_L ∅ (∪)).
  - destruct (unitWrite env dir u) as [[p f]|]; [|apply IH].
    rewrite IH, (IH (<[p:=f]> ∅)).
    rewrite <- (assoc_L (∪)). f_equal.
    rewrite insert_empty. now rewrite insert_union_singleton_l.
Qed.

Lemma writeAll_idemp env dir us m :
  writeAll env dir us (writeAll env dir us m) = writeAll env dir us m.
Proof.
  rewrite (writeAll_union _ _ _ (writeAll env dir us m)).
  rewrite (writeAll_union _ _ _ m).
  rewrite (assoc_L (∪)). now rewrite (idemp_L (∪)).
Qed.

Lemma writeAll_other env dir us : forall m k,
  (forall u p f, In u us -> unitWrite env dir u = Some (p, f) -> p <> k) ->
  writeAll env dir us m !! k = m !! k.
Proof.
  unfold writeAll. induction us as [|u us IH]; intros m k H; simpl.
  - reflexivity.
  - destruct (unitWrite env dir u) as [[p f]|] eqn:E.
    + rewrite IH by (intros; eapply H; eauto; now right).
      apply lookup_insert_ne. eapply H; [now left | exact E].
    + apply IH. intros; eapply H; eauto; now right.
Qed.

Lemma unitWrite_TarFile env dir u p f :
  unitWrite env dir u = Some (p, f) ->
  exists enc im, Digest_Encoded (DigestOf u.2) = Some enc
                 /\ p = filepath_Join env dir (enc ++ ".tar")%string
                 /\ f = TarFile im (ImageRef u.1).
Proof.
  unfold unitWrite. destruct (Digest_Encoded _) as [enc|]; [|discriminate].
  destruct (name_ParseReference_err _ _); [discriminate|].
  destruct (remote_Get _ _ _) as [|rmt]; [discriminate|].
  destruct (Descriptor_Image rmt) as [|im]; [discriminate|].
  intros H. inversion H; subst. eauto.
Qed.

Lemma writeAll_TarFile env dir us : forall m k,
  (exists im tag, m !! k = Some (TarFile im tag))
  \/ (exists u f, In u us /\ unitWrite env dir u = Some (k, f)) ->
  exists im tag, writeAll env dir us m !! k = Some (TarFile im tag).
Proof.
  unfold writeAll. induction us as [|u us IH]; intros m k H; simpl.
  - destruct H as [H|(u & f & [] & _)]. exact H.
  - apply IH. destruct H as [(im & tag & H)|(u' & f & [->|Hin] & Hw)].
    + destruct (unitWrite env dir u) as [[p f]|] eqn:E; [|eauto].
      destruct (decide (p = k)) as [->|Hne].
      * apply unitWrite_TarFile in E. destruct E as (enc & im' & _ & _ & ->).
        left. rewrite lookup_insert_eq. eauto.
      * left. rewrite lookup_insert_ne by assumption. eauto.
    + rewrite Hw. pose proof Hw as Hw'. apply unitWrite_TarFile in Hw'.
      destruct Hw' as (enc & im & _ & _ & ->).
      left. rewrite lookup_insert_eq. eauto.
    + right. eauto.
Qed.

Lemma UnitSpec_fail {A} ow e : UnitSpec ow (@fail A e).
Proof. intros w r w' H. inversion H; subst. auto. Qed.

Lemma UnitSpec_wrapErr {A} ow f (m : M A) :
  UnitSpec ow m -> UnitSpec ow (wrapErr f m).
Proof.
  intros Hm w r w' H. unfold wrapErr in H.
  destruct (m w) as [[a|e|s] w1] eqn:E; inversion H; subst;
    apply (Hm _ _ _ E).
Qed.

(** Steps that leave the file system alone, in front of a unit. *)
Lemma UnitSpec_bind_pre {A B} ow (m : M A) (k : A -> M B) :
  (forall fs ds, Runs (sameFS fs ds) (fun _ => True) m) ->
  (forall a, UnitSpec ow (k a)) -> UnitSpec ow (bind m k).
Proof.
  intros Hm Hk w r w' H. unfold bind in H.
  destruct (Hm (files w) (dirs w) w (conj eq_refl eq_refl)) as ([Hf Hd] & _).
  destruct (m w) as [[a|e|s] w1] eqn:E; simpl in Hf, Hd.
  - destruct (Hk a _ _ _ H) as [Hd' Hr]. rewrite Hd, Hf in *. auto.
  - inversion H; subst. auto.
  - inversion H; subst. auto.
Qed.

(** A step that leaves the file system alone, behind a unit. *)
Lemma UnitSpec_then_ret {A} ow (m : M A) :
  UnitSpec ow m -> UnitSpec ow (m ;;; ret tt).
Proof.
  intros Hm w r w' H. unfold bind in H.
  destruct (m w) as [[a|e|s] w1] eqn:E; inversion H; subst;
    apply (Hm _ _ _ E).
Qed.

Lemma UnitSpec_retryFrom ow cb :
  (forall t p, ((0 <? t)%Z = true -> is_Some p) -> UnitSpec ow (cb t p)) ->
  forall left try prev, ((0 <? try)%Z = true -> is_Some prev) -> 0 <= try ->
    UnitSpec ow (retryFrom left try prev cb).
Proof.
  intros Hcb. induction left as [|left IH]; intros try prev Hp Htry w r w' H;
    simpl in H; pose proof (Hcb try prev Hp w) as Hone;
    destruct (cb try prev w) as [[[]|e|s] w1] eqn:E;
    try exact (Hone _ _ H).
  destruct (Hone _ _ eq_refl) as [Hd Hf].
  assert (Hnext : (0 <? try + 1)%Z = true -> is_Some (Some e)) by eauto.
  destruct (IH (try + 1) (Some e) Hnext ltac:(lia) _ _ _ H) as [Hd' Hr].
  simpl in Hd', Hr. rewrite Hd, Hf in *. auto.
Qed.

Lemma UnitSpec_pullImage env dir img d :
  noFaults env ->
  (forall t, remote_Get env t (pinnedRef img d) = remote_Get env 0 (pinnedRef img d)) ->
  UnitSpec (unitWrite env dir (img, d)) (pullImage env (ImageRef img) d dir).
Proof.
  intros Hio Hreg w r w' H.
  unfold pullImage, getImageTarFile, name_ParseReference, do_remote_Get,
    crane_Save, unitWrite in *. simpl in *. fold (pinnedRef img d) in *.
  destruct (Digest_Encoded (DigestOf d)) as [enc|];
    [|cbv [bind panic] in H; inversion H; subst; auto].
  destruct (name_ParseReference_err env (pinnedRef img d)) as [e|];
    [cbv [bind ret wrapErr fail] in H; inversion H; subst; auto|].
  cbv [bind ret wrapErr fail tick emit lift] in H. simpl in H.
  rewrite Hreg in H.
  destruct (remote_Get env 0 (pinnedRef img d)) as [e|rmt];
    [inversion H; subst; auto|].
  destruct (Descriptor_Image rmt) as [e|im]; [inversion H; subst; auto|].
  simpl in H. rewrite (Hio (S (clock w))) in H.
  case_decide as Hdir; inversion H; subst; simpl; [auto|].
  split; [reflexivity|]. eauto.
Qed.

Lemma Runs_sameFS_ctx_Err fs ds ctx :
  Runs (sameFS fs ds) (fun _ => True) (ctx_Err ctx).
Proof. apply Runs_ctx_Err. apply _. Qed.

Lemma UnitSpec_pullAttempt env cfg dir img d try prevErr :
  noFaults env ->
  (forall t, remote_Get env t (pinnedRef img d) = remote_Get env 0 (pinnedRef img d)) ->
  ((0 <? try)%Z = true -> is_Some prevErr) ->
  UnitSpec (unitWrite env dir (img, d))
           (pullAttempt env cfg dir img d try prevErr).
Proof.
  intros Hio Hreg Hp. unfold pullAttempt.
  assert (Hattempt : UnitSpec (unitWrite env dir (img, d))
                       (pullImage env (ImageRef img) d dir ;;; ret tt))
    by now apply UnitSpec_then_ret, UnitSpec_pullImage.
  destruct (0 <? try)%Z; [|exact Hattempt].
  destruct (Hp eq_refl) as [e ->].
  apply UnitSpec_bind_pre; [intros; apply Runs_ctx_Err; apply _|].
  intros [|]; [apply UnitSpec_fail|].
  apply UnitSpec_bind_pre.
  { intros. apply Runs_log_Debugf; [apply _ | auto]. }
  intros _. apply UnitSpec_bind_pre.
  { intros. apply Runs_emit; [apply _ | auto]. }
  intros _. exact Hattempt.
Qed.

Lemma UnitSpec_pullUnit env cfg dir img d :
  noFaults env ->
  (forall t, remote_Get env t (pinnedRef img d) = remote_Get env 0 (pinnedRef img d)) ->
  UnitSpec (unitWrite env dir (img, d)) (pullUnit env cfg dir img d).
Proof.
  intros Hio Hreg. unfold pullUnit.
  apply UnitSpec_bind_pre; [intros; apply Runs_ctx_Done; apply _|].
  intros [|]; [apply UnitSpec_fail|].
  do 2 (apply UnitSpec_bind_pre;
        [intros; apply Runs_emit; [apply _ | auto]|]; intros _).
  apply UnitSpec_wrapErr. unfold ExecuteWithRetry.
  apply UnitSpec_retryFrom; [|discriminate|lia].
  intros t p Hp. now apply UnitSpec_pullAttempt.
Qed.

(** A loop of units that ends normally stored the archive of every unit, in
    order, outside the directories, which it left alone. *)
Lemma forEach_writeAll env dir (body : ChartImage * DigestInfo -> M unit) us :
  (forall u, In u us -> UnitSpec (unitWrite env dir u) (body u)) ->
  forall w w', forEach us body w = (Ok tt, w') ->
    dirs w' = dirs w
    /\ files w' = writeAll env dir us (files w)
    /\ forall u, In u us ->
         exists p f, unitWrite env dir u = Some (p, f) /\ p ∉ dirs w.
Proof.
  induction us as [|u us IH]; intros Hb w w' H; simpl in H.
  - inversion H; subst. repeat split; auto. intros u [].
  - apply bind_Ok_inv in H. destruct H as ([] & w1 & Hu & H).
    destruct (Hb u (or_introl eq_refl) _ _ _ Hu) as [Hd (p & f & Hw & Hp & Hf)].
    destruct (IH (fun v Hv => Hb v (or_intror Hv)) _ _ H) as (Hd' & Hf' & Hall).
    split; [congruence|]. split.
    + unfold writeAll in *. simpl. rewrite Hw. now rewrite Hf', Hf.
    + intros v [<-|Hv]; [eauto|].
      destruct (Hall v Hv) as (p' & f' & Hw' & Hp'). rewrite Hd in Hp'. eauto.
Qed.

Lemma pullImage_succeeds env dir img d w p f :
  noFaults env ->
  (forall t, remote_Get env t (pinnedRef img d) = remote_Get env 0 (pinnedRef img d)) ->
  unitWrite env dir (img, d) = Some (p, f) -> p ∉ dirs w ->
  exists w', pullImage env (ImageRef img) d dir w = (Ok p, w').
Proof.
  intros Hio Hreg Hw Hp.
  unfold pullImage, getImageTarFile, name_ParseReference, do_remote_Get,
    crane_Save, unitWrite in *. simpl in *. fold (pinnedRef img d) in *.
  destruct (Digest_Encoded (DigestOf d)) as [enc|]; [|discriminate].
  destruct (name_ParseReference_err env (pinnedRef img d)) as [e|];
    [discriminate|].
  cbv [bind ret wrapErr fail tick emit lift]. simpl. rewrite Hreg.
  destruct (remote_Get env 0 (pinnedRef img d)) as [e|rmt]; [discriminate|].
  destruct (Descriptor_Image rmt) as [e|im]; [discriminate|].
  inversion Hw; subst. simpl. rewrite (Hio (S (clock w))).
  case_decide as Hdir; [contradiction|]. eauto.
Qed.

Lemma pullUnit_succeeds env cfg dir img d w p f :
  noFaults env ->
  (forall t, remote_Get env t (pinnedRef img d) = remote_Get env 0 (pinnedRef img d)) ->
  doneAt (Ctx cfg) = None ->
  unitWrite env dir (img, d) = Some (p, f) -> p ∉ dirs w ->
  exists w', pullUnit env cfg dir img d w = (Ok tt, w').
Proof.
  intros Hio Hreg Hctx Hw Hp.
  assert (Hlive : is_done (Ctx cfg) (clock w) = false)
    by (unfold is_done; now rewrite Hctx).
  rewrite (pullUnit_started _ _ _ _ _ _ Hlive).
  destruct (pullImage_succeeds env dir img d (pullUnitStart cfg img d w) p f
              Hio Hreg Hw Hp) as (w' & Hpull).
  exists w'. unfold wrapErr, ExecuteWithRetry.
  assert (Hcb : pullAttempt env cfg dir img d 0 None (pullUnitStart cfg img d w)
                = (Ok tt, w')).
  { unfold pullAttempt. simpl. unfold bind. now rewrite Hpull. }
  destruct (Z.to_nat (MaxRetries cfg)); simpl; now rewrite Hcb.
Qed.

Lemma forEach_succeeds env cfg dir us :
  noFaults env ->
  (forall u t, In u us ->
     remote_Get env t (pinnedRef u.1 u.2) = remote_Get env 0 (pinnedRef u.1 u.2)) ->
  doneAt (Ctx cfg) = None ->
  forall w,
    (forall u, In u us ->
       exists p f, unitWrite env dir u = Some (p, f) /\ p ∉ dirs w) ->
    exists w', forEach us (pullBody env cfg dir) w = (Ok tt, w').
Proof.
  intros Hio Hreg Hctx. induction us as [|[img d] us IH]; intros w Hall; simpl.
  - eauto.
  - destruct (Hall (img, d) (or_introl eq_refl)) as (p & f & Hw & Hp).
    destruct (pullUnit_succeeds env cfg dir img d w p f Hio
                (fun t => Hreg (img, d) t (or_introl eq_refl)) Hctx Hw Hp)
      as (w1 & Hu).
    unfold pullBody at 1. simpl. rewrite (bind_Ok _ _ _ _ _ Hu).
    destruct (UnitSpec_pullUnit env cfg dir img d Hio
                (fun t => Hreg (img, d) t (or_introl eq_refl)) _ _ _ Hu)
      as [Hd _].
    apply IH.
    + intros u t Hu'. apply Hreg. now right.
    + intros u Hu'. rewrite Hd. apply Hall. now right.
Qed.

Lemma in_pullUnits lock img d :
  In (img, d) (pullUnits lock) <-> In img (Images lock) /\ In d (Digests img).
Proof.
  unfold pullUnits. rewrite in_flat_map. split.
  - intros (i & Hi & Hin). apply in_map_iff in Hin.
    destruct Hin as (d' & Heq & Hd). inversion Heq; subst. auto.
  - intros [Hi Hd]. exists img. split; [assumption|].
    apply in_map_iff. eauto.
Qed.

Lemma PullImages_Ok_inv env lock dir opts w w1 :
  PullImages env lock dir opts w = (Ok tt, w1) ->
  exists wm w5,
    os_MkdirAll env dir w = (Ok tt, wm)
    /\ forEach (pullUnits lock) (pullBody env (NewConfiguration env opts) dir)
         (pullHeader (NewConfiguration env opts) lock wm) = (Ok tt, w5)
    /\ w1 = emitW (Progress (Bar (NewConfiguration env opts)) Stop) w5.
Proof.
  intros H. destruct (os_MkdirAll env dir w) as [[[]|e|s] wm] eqn:Hmk.
  - rewrite (PullImages_flat _ _ _ _ _ _ Hmk) in H. unfold deferred in H.
    destruct (forEach _ _ _) as [r w5] eqn:Hloop.
    inversion H; subst. eauto.
  - unfold PullImages in H. erewrite bind_Err in H; [discriminate|].
    unfold wrapErr. now rewrite Hmk.
  - unfold PullImages in H. erewrite bind_Panic in H; [discriminate|].
    unfold wrapErr. now rewrite Hmk.
Qed.

Lemma os_MkdirAll_Ok env path w wm :
  os_MkdirAll env path w = (Ok tt, wm) ->
  files w !! path = None /\ files wm = files w /\ dirs wm = {[path]} ∪ dirs w.
Proof.
  unfold os_MkdirAll. cbv [bind tick fail]. simpl.
  destruct (ioFault env (clock w)); [discriminate|]. simpl.
  destruct (files w !! path); [discriminate|].
  intros H. inversion H; subst. auto.
Qed.

Lemma os_MkdirAll_again env path w :
  noFaults env -> files w !! path = None ->
  exists wm, os_MkdirAll env path w = (Ok tt, wm)
             /\ files wm = files w /\ dirs wm = {[path]} ∪ dirs w.
Proof.
  intros Hio Hfile. unfold os_MkdirAll. cbv [bind tick fail]. simpl.
  rewrite (Hio (clock w)). simpl. rewrite Hfile. eauto.
Qed.

(** C9. With no local I/O fault, no cancellation, and a registry that
    answers each pinned reference of the lock the same way at every instant,
    a pull that succeeded can be repeated into the same cache directory: the
    second pull succeeds too and leaves the files and directories exactly as
    the first one left them.  After the first pull each Digest Entry is held
    by an image tarball in the file named after the encoded form of its
    digest. *)
Theorem C9_pull_twice_same_cache env lock imagesDir opts w w1 :
  noFaults env ->
  registryStable env lock ->
  doneAt (Ctx (NewConfiguration env opts)) = None ->
  PullImages env lock imagesDir opts w = (Ok tt, w1) ->
  (exists w2, PullImages env lock imagesDir opts w1 = (Ok tt, w2)
              /\ files w2 = files w1 /\ dirs w2 = dirs w1)
  /\ (forall img d, In img (Images lock) -> In d (Digests img) ->
        exists enc im tag,
          Digest_Encoded (DigestOf d) = Some enc
          /\ files w1 !! filepath_Join env imagesDir (enc ++ ".tar")%string
             = Some (TarFile im tag)).
Proof.
  intros Hio Hreg Hctx Hrun.
  set (cfg := NewConfiguration env opts) in *.
  assert (Hstable : forall u t, In u (pullUnits lock) ->
            remote_Get env t (pinnedRef u.1 u.2)
            = remote_Get env 0 (pinnedRef u.1 u.2)).
  { intros [img d] t Hu. apply in_pullUnits in Hu. now apply Hreg. }
  assert (Hspec : forall u, In u (pullUnits lock) ->
            UnitSpec (unitWrite env imagesDir u) (pullBody env cfg imagesDir u)).
  { intros [img d] Hu. apply UnitSpec_pullUnit; [assumption|].
    intros t. apply (Hstable (img, d) t Hu). }
  apply PullImages_Ok_inv in Hrun. fold cfg in Hrun.
  destruct Hrun as (wm & w5 & Hmk & Hloop & ->).
  apply os_MkdirAll_Ok in Hmk. destruct Hmk as (Hnofile & Hfm & Hdm).
  destruct (forEach_writeAll env imagesDir _ _ Hspec _ _ Hloop)
    as (Hd5 & Hf5 & Hall).
  simpl in Hd5, Hf5, Hall. rewrite Hfm in Hf5.
  split.
  - assert (Hdirfree : files w5 !! imagesDir = None).
    { rewrite Hf5, writeAll_other; [assumption|].
      intros u p f Hu Hw ->. destruct (Hall u Hu) as (p' & f' & Hw' & Hp').
      rewrite Hw in Hw'. inversion Hw'; subst. apply Hp'. rewrite Hdm.
      apply elem_of_union. left. now apply elem_of_singleton. }
    destruct (os_MkdirAll_again env imagesDir
                (emitW (Progress (Bar cfg) Stop) w5) Hio Hdirfree)
      as (wm2 & Hmk2 & Hfm2 & Hdm2).
    simpl in Hfm2, Hdm2.
    assert (Hdm2' : dirs wm2 = dirs wm).
    { rewrite Hdm2, Hd5, Hdm. rewrite (assoc_L (∪)).
      now rewrite (idemp_L (∪)). }
    destruct (forEach_succeeds env cfg imagesDir (pullUnits lock) Hio Hstable
                Hctx (pullHeader cfg lock wm2)) as (w6 & Hloop2).
    { intros u Hu. simpl. rewrite Hdm2'. now apply Hall. }
    destruct (forEach_writeAll env imagesDir _ _ Hspec _ _ Hloop2)
      as (Hd6 & Hf6 & _).
    simpl in Hd6, Hf6.
    exists (emitW (Progress (Bar cfg) Stop) w6).
    rewrite (PullImages_flat _ _ _ _ _ _ Hmk2). fold cfg.
    unfold deferred. rewrite Hloop2. simpl. split; [reflexivity|]. split.
    + rewrite Hf6, Hfm2, Hf5. apply writeAll_idemp.
    + rewrite Hd6, Hdm2', Hd5. reflexivity.
  - intros img d Himg Hd. simpl.
    assert (Hu : In (img, d) (pullUnits lock)) by now apply in_pullUnits.
    destruct (Hall _ Hu) as (p & f & Hw & _).
    destruct (unitWrite_TarFile _ _ _ _ _ Hw) as (enc & im & Henc & -> & ->).
    simpl in Henc.
    destruct (writeAll_TarFile env imagesDir (pullUnits lock) (files w)
                (filepath_Join env imagesDir (enc ++ ".tar")%string))
      as (im' & tag & Hlook).
    { right. eauto. }
    exists enc, im', tag. rewrite Hf5. auto.
Qed.

Lemma C9_pull_twice_witness :
  (exists w2, PullImages Demo.env Demo.lock "images" [] Scenario.wPulled = (Ok tt, w2)
              /\ files w2 = files Scenario.wPulled
              /\ dirs w2 = dirs Scenario.wPulled)
  /\ (forall img d, In img (Images Demo.lock) -> In d (Digests img) ->
        exists enc im tag,
          Digest_Encoded (DigestOf d) = Some enc
          /\ files Scenario.wPulled
               !! filepath_Join Demo.env "images" (enc ++ ".tar")%string
             = Some (TarFile im tag)).
Proof.
  apply (C9_pull_twice_same_cache Demo.env Demo.lock "images" [] Demo.w0).
  - intros t. reflexivity.
  - intros img d t _ _. reflexivity.
  - reflexivity.
  - vm_compute. reflexivity.
Defined.

(** With no logger configured ([WithLog] not given), the first retry of a
    unit dereferences the nil [cfg.Log] and the call panics. *)
Example PullImages_without_logger_panics_on_retry :
  (PullImages Demo.envDown Demo.lock "images" [] Demo.w0).1
  = Panic "invalid memory address or nil pointer dereference".
Proof. vm_compute. reflexivity. Qed.

(** ** Manifest lists read from the registry *)

Lemma readManifests_from ms : forall acc,
  fold_left readManifestEntry (List.filter (fun d => negb (isAttestation d)) ms) acc
  = fold_left readManifestEntry ms acc.
Proof.
  induction ms as [|d ms IH]; intros acc; simpl; [reflexivity|].
  destruct (isAttestation d) eqn:E; simpl.
  - rewrite IH. f_equal. unfold readManifestEntry. destruct acc. now rewrite E.
  - apply IH.
Qed.

Lemma isAttestation_spec d :
  isAttestation d = true
  <-> Annotations d !! "vnd.docker.reference.type" = Some "attestation-manifest".
Proof.
  unfold isAttestation. rewrite String.eqb_eq.
  destruct (Annotations d !! "vnd.docker.reference.type") as [v|]; simpl.
  - split; [intros ->; reflexivity | intros H; now inversion H].
  - split; discriminate.
Qed.

Lemma readManifestEntry_digests acc acc' d :
  acc.1 = acc'.1 -> (readManifestEntry acc d).1 = (readManifestEntry acc' d).1.
Proof.
  destruct acc as [m e], acc' as [m' e']. simpl. intros ->.
  unfold readManifestEntry. destruct (isAttestation d); [reflexivity|].
  destruct (isImageManifest d); [|reflexivity].
  destruct (DescPlatform d); reflexivity.
Qed.

Lemma readManifestEntry_skip acc d :
  isDeployable d = false -> (readManifestEntry acc d).1 = acc.1.
Proof.
  destruct acc as [m e]. unfold isDeployable, readManifestEntry.
  destruct (isAttestation d); [reflexivity|].
  destruct (isImageManifest d); [|reflexivity].
  destruct (DescPlatform d) as [p|]; [|reflexivity].
  simpl. discriminate.
Qed.

Lemma readManifests_deployable ms : forall acc acc',
  acc.1 = acc'.1 ->
  (fold_left readManifestEntry (List.filter isDeployable ms) acc).1
  = (fold_left readManifestEntry ms acc').1.
Proof.
  induction ms as [|d ms IH]; intros acc acc' Hacc; simpl; [assumption|].
  destruct (isDeployable d) eqn:E; simpl.
  - apply IH. now apply readManifestEntry_digests.
  - apply IH. now rewrite readManifestEntry_skip.
Qed.

Lemma readManifests_origin ms : forall acc arch dd,
  (fold_left readManifestEntry ms acc).1 !! arch = Some dd ->
  acc.1 !! arch = Some dd \/ entryFrom ms arch dd.
Proof.
  induction ms as [|d ms IH]; intros acc arch dd H; simpl in H; [now left|].
  apply IH in H. destruct H as [H|(d' & plat & Hin & Hrest)].
  - destruct acc as [m e]. unfold readManifestEntry in H.
    destruct (isAttestation d) eqn:Ea; [now left|].
    destruct (isImageManifest d) eqn:Ei; [|now left].
    destruct (DescPlatform d) as [p|] eqn:Ep; [|now left].
    simpl in H. destruct (decide ((OS p ++ "/" ++ Architecture p)%string = arch))
      as [Heq|Hne].
    + subst arch. rewrite lookup_insert_eq in H. inversion H; subst.
      right. exists d, p. simpl. auto 10.
    + rewrite lookup_insert_ne in H by assumption. now left.
  - right. exists d', plat. split; [now right | exact Hrest].
Qed.

(** C8. The attestation filter compares one fixed annotation,
    [vnd.docker.reference.type], with one fixed value,
    [attestation-manifest].  Entries so annotated have no effect at all on
    what is returned; entries that are not image manifests, and image
    manifests without a platform, add nothing to the digests.  Every
    (platform, digest) pair returned comes from an entry of the manifest list
    that is an image manifest, carries a platform and is no attestation. *)
Theorem C8_attestations_and_non_images_skipped (ms : list Descriptor) :
  (forall d, isAttestation d = true
             <-> Annotations d !! "vnd.docker.reference.type"
                 = Some "attestation-manifest")
  /\ readManifests (List.filter (fun d => negb (isAttestation d)) ms)
     = readManifests ms
  /\ (readManifests (List.filter isDeployable ms)).1 = (readManifests ms).1
  /\ (forall arch dd, (readManifests ms).1 !! arch = Some dd ->
        exists d plat,
          In d ms /\ isAttestation d = false /\ isImageManifest d = true
          /\ DescPlatform d = Some plat
          /\ arch = (OS plat ++ "/" ++ Architecture plat)%string
          /\ dd = {| DataDigest := Digest d; DataArch := arch |})
  /\ (forall env codec src w r w',
        ReadRemoteImageManifest env codec src w = (Ok r, w') ->
        exists desc idx,
          remote_Get env (clock w) src = inr desc
          /\ json_Unmarshal_IndexManifest codec (Manifest desc) = Some idx
          /\ r = readManifests (Manifests idx)).
Proof.
  split; [apply isAttestation_spec|].
  split; [apply readManifests_from|].
  split; [now apply readManifests_deployable|].
  split.
  - intros arch dd H. apply readManifests_origin in H.
    destruct H as [H|H]; [|exact H]. simpl in H.
    rewrite lookup_empty in H. discriminate.
  - intros env codec src w r w' H. unfold ReadRemoteImageManifest in H.
    apply bind_Ok_inv in H. destruct H as (ref & w1 & Href & H).
    apply wrapErr_Ok_inv, name_ParseReference_Ok in Href.
    destruct Href as [-> ->].
    apply bind_Ok_inv in H. destruct H as (desc & w2 & Hget & H).
    apply wrapErr_Ok_inv in Hget. unfold do_remote_Get in Hget.
    cbv [bind tick emit] in Hget. simpl in Hget.
    destruct (remote_Get env (clock w) src) as [e|desc'] eqn:Eget;
      [discriminate|].
    inversion Hget; subst.
    destruct (json_Unmarshal_IndexManifest codec (Manifest desc)) as [idx|] eqn:Ej;
      [|discriminate].
    inversion H; subst. eauto.
Qed.

(** ** Packing *)

Lemma stripPrefix_spec pre : forall s rest,
  stripPrefix pre s = Some rest <-> s = (pre ++ rest)%string.
Proof.
  induction pre as [|a pre IH]; intros s rest; simpl.
  - split; [intros H; now inversion H | intros ->; reflexivity].
  - destruct s as [|b s]; [split; discriminate|].
    destruct (Ascii.eqb a b) eqn:E.
    + apply Ascii.eqb_eq in E. subst b. rewrite IH.
      split; [intros ->; reflexivity | intros H; now inversion H].
    + apply Ascii.eqb_neq in E. split; [discriminate|].
      intros H. inversion H. congruence.
Qed.

Lemma filesUnder_spec dir fs rel f :
  In (rel, f) (filesUnder dir fs) <-> fs !! ((dir ++ "/") ++ rel)%string = Some f.
Proof.
  unfold filesUnder. rewrite <- list_elem_of_In, list_elem_of_omap. split.
  - intros ([p f'] & Hin & H). simpl in H.
    destruct (stripPrefix (dir ++ "/") p) as [rel'|] eqn:E; [|discriminate].
    inversion H; subst. apply stripPrefix_spec in E. subst p.
    now apply elem_of_map_to_list in Hin.
  - intros H. exists (((dir ++ "/") ++ rel)%string, f). split.
    + now apply elem_of_map_to_list.
    + simpl.
      assert (E : stripPrefix (dir ++ "/") ((dir ++ "/") ++ rel) = Some rel)
        by now apply stripPrefix_spec.
      now rewrite E.
Qed.

(** C7. A successful [compressChart] leaves at the output path one archive.
    Every entry of the archive is a file of the chart root, stored under the
    path prefix [<chartName>-<chartVersion>]; every file of the chart root is
    in it.  The entries depend on the chart and the file system only: the
    caller's output path has no part in them. *)
Theorem C7_archive_prefix_is_name_version env ctx chart outputFile w w' :
  compressChart env ctx chart outputFile w = (Ok tt, w') ->
  exists entries,
    files w' !! outputFile = Some (ArchiveFile entries)
    /\ (forall name f, In (name, f) entries <->
          exists rel,
            name = ((ChartName chart ++ "-" ++ ChartVersion chart) ++ "/" ++ rel)%string
            /\ files w !! ((ChartRootDir chart ++ "/") ++ rel)%string = Some f)
    /\ (forall ctx2 outputFile2 w2 w2',
          files w2 = files w ->
          compressChart env ctx2 chart outputFile2 w2 = (Ok tt, w2') ->
          files w2' !! outputFile2 = Some (ArchiveFile entries)).
Proof.
  unfold compressChart, utils_TarContext. cbv [bind tick fail]. simpl.
  destruct (ioFault env (clock w)) as [e|]; [discriminate|].
  intros H. inversion H; subst. simpl.
  eexists. split; [apply lookup_insert_eq|]. split.
  - intros name f. rewrite in_map_iff. split.
    + intros ([rel f'] & Heq & Hin). simpl in Heq. inversion Heq; subst.
      apply filesUnder_spec in Hin. eauto.
    + intros (rel & -> & Hf). exists (rel, f). split; [reflexivity|].
      now apply filesUnder_spec.
  - intros ctx2 out2 w2 w2' Hfs.
    destruct (ioFault env (clock w2)) as [e|]; [discriminate|].
    intros H2. inversion H2; subst. simpl. rewrite Hfs.
    apply lookup_insert_eq.
Qed.

(** ** Computations that do not write *)

Lemma Quiet_ret {A} (a : A) : Quiet (ret a).
Proof. intros w. auto. Qed.

Lemma Quiet_fail {A} e : Quiet (@fail A e).
Proof. intros w. auto. Qed.

Lemma Quiet_lift {A} (r : error + A) : Quiet (lift r).
Proof. destruct r; [apply Quiet_fail | apply Quiet_ret]. Qed.

Lemma Quiet_tick : Quiet tick.
Proof. intros w. auto. Qed.

Lemma Quiet_emit ev : Quiet (emit ev).
Proof. intros w. auto. Qed.

Lemma Quiet_bind {A B} (m : M A) (k : A -> M B) :
  Quiet m -> (forall a, Quiet (k a)) -> Quiet (bind m k).
Proof.
  intros Hm Hk w. unfold bind. destruct (Hm w) as [Hf Hd].
  destruct (m w) as [[a|e|s] w1]; simpl in *; auto.
  destruct (Hk a w1) as [Hf' Hd']. split; congruence.
Qed.

Lemma Quiet_wrapErr {A} f (m : M A) : Quiet m -> Quiet (wrapErr f m).
Proof.
  intros Hm w. unfold wrapErr. specialize (Hm w).
  destruct (m w) as [[a|e|s] w1]; exact Hm.
Qed.

Lemma Quiet_read {A} (f : World -> error + A) : Quiet (fun w => lift (f w) w).
Proof. intros w. destruct (f w); auto. Qed.

Lemma Quiet_Failf {A} format args : Quiet (@Failf A format args).
Proof.
  unfold Failf. apply Quiet_bind; [apply Quiet_emit | intros; apply Quiet_fail].
Qed.

Lemma Quiet_orFailf {A} format args (m : M A) :
  Quiet m -> Quiet (orFailf format args m).
Proof.
  intros Hm w. unfold orFailf. specialize (Hm w).
  destruct (m w) as [[a|e|s] w1]; exact Hm.
Qed.

Lemma Quiet_ExecuteStep {A} title args (m : M A) :
  Quiet m -> Quiet (ExecuteStep title args m).
Proof. intros Hm. apply Quiet_bind; [apply Quiet_emit | intros; exact Hm]. Qed.

Lemma Quiet_Infof format args : Quiet (Infof format args).
Proof. apply Quiet_emit. Qed.

Lemma Quiet_os_ReadFile env path : Quiet (os_ReadFile env path).
Proof.
  unfold os_ReadFile. apply Quiet_bind; [apply Quiet_tick|]. intros t.
  destruct (ioFault env t); [apply Quiet_fail|].
  intros w. simpl. repeat case_match; auto.
Qed.

Lemma Quiet_FromYAMLFile env codec path :
  Quiet (imagelock_FromYAMLFile env codec path).
Proof.
  apply Quiet_bind; [apply Quiet_os_ReadFile | intros; apply Quiet_lift].
Qed.

Lemma Quiet_generateImage tools platforms decl :
  Quiet (generateImage tools platforms decl).
Proof.
  unfold generateImage. apply Quiet_bind; [apply Quiet_tick|]. intros t.
  apply Quiet_bind; [apply Quiet_lift|]. intros resolved.
  destruct (keepPlatforms platforms resolved); [apply Quiet_fail | apply Quiet_ret].
Qed.

Lemma Quiet_generateImages tools platforms decls :
  Quiet (generateImages tools platforms decls).
Proof.
  induction decls as [|decl decls IH]; simpl; [apply Quiet_ret|].
  apply Quiet_bind; [apply Quiet_generateImage|]. intros img.
  apply Quiet_bind; [exact IH | intros; apply Quiet_ret].
Qed.

Lemma Quiet_Generate tools key chartPath platforms :
  Quiet (imagelock_Generate tools key chartPath platforms).
Proof.
  unfold imagelock_Generate.
  apply Quiet_bind; [apply (Quiet_read (fun w => chartutils_LoadChart tools (files w) chartPath))|].
  intros chart.
  apply Quiet_bind;
    [apply (Quiet_read (fun w => listDeclaredImages tools (files w) chartPath key))|].
  intros decls. apply Quiet_bind; [apply Quiet_generateImages|].
  intros; apply Quiet_ret.
Qed.

(** Verification reads the lock and the registry; it writes nothing. *)
Lemma Quiet_verifyLock env codec tools chartPath lockFile :
  Quiet (verifyLock env codec tools chartPath lockFile).
Proof.
  unfold verifyLock. apply Quiet_bind; [apply Quiet_FromYAMLFile|].
  intros persisted. apply Quiet_bind; [apply Quiet_Generate|].
  intros current. case_decide; [apply Quiet_ret | apply Quiet_fail].
Qed.

(** ** The lock a chart is wrapped with *)

Lemma keepPlatforms_in platforms resolved :
  platforms <> [] ->
  Forall (fun d => Arch d ∈ platforms) (keepPlatforms platforms resolved).
Proof.
  intros Hne. unfold keepPlatforms. destruct platforms as [|p ps]; [congruence|].
  apply Forall_forall. intros d Hd. apply list_elem_of_In in Hd.
  apply filter_In in Hd. destruct Hd as [_ Hd].
  now apply bool_decide_eq_true in Hd.
Qed.

Lemma generateImage_Ok tools platforms decl w img w' :
  generateImage tools platforms decl w = (Ok img, w') ->
  Name img = dName decl /\ ImageRef img = dImage decl
  /\ Digests img <> []
  /\ (platforms <> [] -> Forall (fun d => Arch d ∈ platforms) (Digests img))
  /\ exists t resolved,
       resolveImage tools t (dImage decl) = inr resolved
       /\ Digests img = keepPlatforms platforms resolved.
Proof.
  unfold generateImage. cbv [bind tick lift]. simpl.
  destruct (resolveImage tools (clock w) (dImage decl)) as [e|resolved] eqn:E;
    [discriminate|]. simpl.
  destruct (keepPlatforms platforms resolved) as [|d kept] eqn:K; [discriminate|].
  intros H. inversion H; subst. simpl. repeat split; try discriminate.
  - intros Hne. rewrite <- K. now apply keepPlatforms_in.
  - exists (clock w), resolved. auto.
Qed.

Lemma generateImages_Ok tools platforms decls : forall w imgs w',
  generateImages tools platforms decls w = (Ok imgs, w') ->
  Forall2 (fun decl img =>
             Name img = dName decl /\ ImageRef img = dImage decl
             /\ Digests img <> []
             /\ (platforms <> [] ->
                 Forall (fun d => Arch d ∈ platforms) (Digests img))
             /\ exists t resolved,
                  resolveImage tools t (dImage decl) = inr resolved
                  /\ Digests img = keepPlatforms platforms resolved)
          decls imgs.
Proof.
  induction decls as [|decl decls IH]; intros w imgs w' H; simpl in H.
  - inversion H; subst. constructor.
  - apply bind_Ok_inv in H. destruct H as (img & w1 & Himg & H).
    apply bind_Ok_inv in H. destruct H as (rest & w2 & Hrest & H).
    inversion H; subst. constructor.
    + eapply generateImage_Ok; eassumption.
    + eapply IH; eassumption.
Qed.

Lemma Generate_Ok tools key chartPath platforms w lock w' :
  imagelock_Generate tools key chartPath platforms w = (Ok lock, w') ->
  generatedFrom tools key (files w) chartPath platforms lock.
Proof.
  unfold imagelock_Generate. intros H.
  apply bind_Ok_inv in H. destruct H as (chart & w1 & Hc & H).
  destruct (chartutils_LoadChart tools (files w) chartPath) eqn:Ec;
    inversion Hc; subst.
  apply bind_Ok_inv in H. destruct H as (decls & w2 & Hd & H).
  destruct (listDeclaredImages tools (files w1) chartPath key) eqn:Ed;
    inversion Hd; subst.
  apply bind_Ok_inv in H. destruct H as (imgs & w3 & Hi & H).
  inversion H; subst. exists decls. split; [assumption|]. simpl.
  eapply generateImages_Ok; eassumption.
Qed.

Lemma utils_FileExists_true path w :
  is_Some (files w !! path) \/ path ∈ dirs w ->
  utils_FileExists path w = (Ok true, w).
Proof.
  intros H. unfold utils_FileExists. f_equal. f_equal.
  apply orb_true_iff. destruct H as [H|H]; [left | right];
    now apply bool_decide_eq_true.
Qed.

Lemma utils_FileExists_false path w :
  files w !! path = None -> path ∉ dirs w ->
  utils_FileExists path w = (Ok false, w).
Proof.
  intros Hf Hd. unfold utils_FileExists. f_equal. f_equal.
  apply orb_false_iff. split; apply bool_decide_eq_false; [|assumption].
  rewrite Hf. intros [x Hx]. discriminate.
Qed.

Lemma os_WriteFile_Ok env path content w w' :
  os_WriteFile env path content w = (Ok tt, w') ->
  files w' = <[path := DataFile content]> (files w) /\ dirs w' = dirs w.
Proof.
  unfold os_WriteFile. cbv [bind tick]. simpl.
  case_decide as Hdir; [discriminate|].
  destruct (ioFault env (clock w)); [discriminate|].
  intros Hrun. inversion Hrun; subst. auto.
Qed.

(** C10. [wrapChart] decides by the presence of the lock path alone.  When
    the path exists, the lock is verified and the step leaves every file and
    directory as it was, whatever the outcome: the step succeeds exactly when
    the verification does.  When the path is absent and the step succeeds, a
    lock generated from the chart's annotations for the requested platforms
    was written, serialised, to the lock path, and nothing else changed.
    In [wrapChart] the images are pulled only after this step, from the world
    it leaves, and not at all when it fails. *)
Theorem C10_lock_generated_iff_absent env codec tools ctx chartPath lockFile
    platforms w :
  let run := wrapChart_lock env codec tools ctx chartPath lockFile platforms w in
  ((is_Some (files w !! lockFile) \/ lockFile ∈ dirs w) ->
     files run.2 = files w /\ dirs run.2 = dirs w
     /\ (run.1 = Ok tt <->
         (verifyLock env codec tools chartPath lockFile
            (emitW (Logf "step" "Verifying Images.lock" []) w)).1 = Ok tt))
  /\ (files w !! lockFile = None -> lockFile ∉ dirs w -> run.1 = Ok tt ->
      exists lock,
        files run.2 = <[lockFile := DataFile (imagelock_ToYAML codec lock)]> (files w)
        /\ dirs run.2 = dirs w
        /\ generatedFrom tools (imagelock_DefaultAnnotationsKey env) (files w)
             chartPath platforms lock)
  /\ (forall inputPath outputFile flags w0 chart,
        resolveInputChartPath tools inputPath flags
          (emitW (Logf "section" "Wrapping Helm chart %q" [AStr inputPath]) w0)
        = (Ok chartPath, w) ->
        chartutils_LoadChart tools (files w) chartPath = inr chart ->
        getImageLockFilePath tools chartPath = inr lockFile ->
        wrapChart env codec tools ctx inputPath outputFile platforms flags w0
        = match run with
          | (Ok _, w2) =>
              (out <-- wrapChart_output env tools chart outputFile ;;
               wrapChart_finish env codec ctx chart out) w2
          | (Err e, w2) => (Err e, w2)
          | (Panic s, w2) => (Panic s, w2)
          end).
Proof.
  intros run. split; [|split].
  - intros Hex. unfold run, wrapChart_lock.
    rewrite (bind_Ok _ _ _ _ _ (utils_FileExists_true _ _ Hex)).
    match goal with |- context [bind ?m ?k w] =>
      assert (Hq : Quiet (bind m k)) end.
    { apply Quiet_bind; [|intros; apply Quiet_Infof].
      apply Quiet_orFailf, Quiet_ExecuteStep, Quiet_verifyLock. }
    destruct (Hq w) as [Hf Hd]. split; [exact Hf|]. split; [exact Hd|].
    unfold bind, orFailf, ExecuteStep, bind, emit, Infof, Failf, bind, emit, fail.
    destruct (verifyLock env codec tools chartPath lockFile _) as [[[]|e|s] w1];
      simpl; split; intros H; try reflexivity; discriminate.
  - intros Hnf Hnd Hok. unfold run, wrapChart_lock in *.
    rewrite (bind_Ok _ _ _ _ _ (utils_FileExists_false _ _ Hnf Hnd)) in *.
    unfold bind, orFailf, ExecuteStep, bind, emit, Infof, Failf, bind, emit, fail
      in *.
    destruct (createImagesLock env codec tools chartPath lockFile platforms ctx _)
      as [[[]|e|s] w1] eqn:Hcreate; simpl in Hok; try discriminate.
    unfold createImagesLock in Hcreate.
    apply bind_Ok_inv in Hcreate. destruct Hcreate as (lock & w2 & Hgen & Hwr).
    apply os_WriteFile_Ok in Hwr. destruct Hwr as [Hf Hd].
    destruct (Quiet_Generate tools (imagelock_DefaultAnnotationsKey env)
                chartPath platforms
                (emitW (Logf "step"
                   "Images.lock file does not exist. Generating it from annotations..."
                   []) w)) as [Hf2 Hd2].
    rewrite Hgen in Hf2, Hd2. simpl in Hf2, Hd2.
    apply Generate_Ok in Hgen. simpl in Hgen.
    exists lock. simpl. rewrite Hf, Hd, Hf2, Hd2. auto.
  - intros inputPath outputFile flags w0 chart Hres Hload Hlock.
    unfold wrapChart.
    rewrite (bind_Ok (emit _) _ w0 tt _ eq_refl).
    rewrite (bind_Ok _ _ _ _ _ Hres).
    erewrite bind_Ok; [|unfold wrapErr; rewrite Hload; reflexivity].
    erewrite bind_Ok; [|unfold wrapErr; rewrite Hlock; reflexivity].
    unfold bind at 1. fold run. destruct run as [[[]|e|s] w2]; reflexivity.
Qed.

Lemma C7_archive_prefix_witness :
  exists entries,
    files (compressChart Demo.env context_Background ChartScenario.chart
             "demo.tgz" ChartScenario.wChart).2 !! "demo.tgz"
    = Some (ArchiveFile entries)
    /\ (forall name f, In (name, f) entries <->
          exists rel,
            name = (("demo" ++ "-" ++ "1.0.0") ++ "/" ++ rel)%string
            /\ files ChartScenario.wChart !! (("charts/demo" ++ "/") ++ rel)%string
               = Some f)
    /\ (forall ctx2 outputFile2 w2 w2',
          files w2 = files ChartScenario.wChart ->
          compressChart Demo.env ctx2 ChartScenario.chart outputFile2 w2
          = (Ok tt, w2') ->
          files w2' !! outputFile2 = Some (ArchiveFile entries)).
Proof.
  apply (C7_archive_prefix_is_name_version Demo.env context_Background
           ChartScenario.chart "demo.tgz" ChartScenario.wChart
           (compressChart Demo.env context_Background ChartScenario.chart
              "demo.tgz" ChartScenario.wChart).2).
  vm_compute. reflexivity.
Defined.

Lemma C10_lock_generated_witness :
  exists lock,
    files (wrapChart_lock Demo.env ChartScenario.codec ChartScenario.tools
             context_Background "charts/demo" "charts/demo/Images.lock"
             ["linux/amd64"] ChartScenario.wChart).2
    = <["charts/demo/Images.lock" :=
          DataFile (imagelock_ToYAML ChartScenario.codec lock)]>
        (files ChartScenario.wChart)
    /\ dirs (wrapChart_lock Demo.env ChartScenario.codec ChartScenario.tools
               context_Background "charts/demo" "charts/demo/Images.lock"
               ["linux/amd64"] ChartScenario.wChart).2
       = dirs ChartScenario.wChart
    /\ generatedFrom ChartScenario.tools
         (imagelock_DefaultAnnotationsKey Demo.env)
         (files ChartScenario.wChart) "charts/demo" ["linux/amd64"] lock.
Proof.
  pose proof (C10_lock_generated_iff_absent Demo.env ChartScenario.codec
                ChartScenario.tools context_Background "charts/demo"
                "charts/demo/Images.lock" ["linux/amd64"] ChartScenario.wChart)
    as H.
  cbv zeta in H. destruct H as (_ & Habsent & _).
  apply Habsent.
  - vm_compute. reflexivity.
  - apply (bool_decide_unpack _). vm_compute. exact Logic.I.
  - vm_compute. reflexivity.
Defined.
